(** * Session synchronisation of the study room: playback and whiteboard

    A shallow embedding of the client components that keep a room in step,
    and the properties of their protocol:

    - [RoomVideoPlayer] (components/RoomVideoPlayer.tsx): the socket handler
      for [playback-update], the three local handlers that emit it, the
      pending-seek buffer and [setPlayerControls];
    - [VideoPlayer] (components/VideoPlayer.tsx): the [setPlaying] and
      [seekTo] members of the control object it registers;
    - [Whiteboard] (the whiteboard component): [drawStroke], [repaintAll],
      the broadcast handlers, the pointer handlers and [clearCanvas];
    - [Dashboard] (the dashboard page): [hashFNV1a] and [pickThumbById];
    - [RoomRealtime] (hooks/useRoomRealtime.ts): the listener of row
      changes, whose [video_url] feeds the player.

    JavaScript numbers are binary64 floats, so playback times, coordinates
    and sizes are primitive floats; [Date.now()] is an integer number of
    milliseconds and is a [Z].  A [useRef] cell is a field of the component
    state; a call on an external object (the media control surface, the
    socket, the 2D context) is recorded, in order, as an effect. *)

From Stdlib Require Import ZArith List Bool String Lia.
From Stdlib Require Import Floats.
Import ListNotations.

(** ** RoomVideoPlayer *)

Module RoomVideoPlayer.

Definition SEEK_THRESHOLD : float := 0x1.3333333333333p-1%float. (* 0.6 s *)
Definition UPDATE_THROTTLE_MS : Z := 1500.

(** The payload of a [playback-update] message, as the three local handlers
    build it and as the inbound handler destructures it.  It has no field
    naming its sender. *)
Record PlaybackUpdate := {
  roomId : string;
  video_url : option string;
  is_playing : bool;
  playback_time : float
}.

(** The object held by [playerControlRef] is untyped; the handlers test each
    member before calling it.  A field says whether the member is a
    function. *)
Record Controls := {
  has_getCurrentTime : bool;
  has_seekTo : bool;
  has_setPlaying : bool
}.

Record Props := {
  p_roomId : string;
  effectiveUrl : option string;
  has_onTimeUpdate : bool;
  has_onSeekComplete : bool
}.

Record State := {
  lastSentRef : Z;
  pendingSeekRef : option float;
  playerControlRef : option Controls
}.

Definition initial : State :=
  {| lastSentRef := 0; pendingSeekRef := None; playerControlRef := None |}.

Inductive Effect :=
| SeekTo (t : float)                 (* controls.seekTo(t) *)
| SetPlaying (play : bool)           (* controls.setPlaying(play) *)
| Emit (event : string) (payload : PlaybackUpdate)  (* socket.emit *)
| OnTimeUpdate (t : float)           (* props.onTimeUpdate?.(t) *)
| OnSeekComplete.                    (* props.onSeekComplete?.() *)

(** [playerControlRef.current?.m] is a function. *)
Definition member (m : Controls -> bool) (st : State) : bool :=
  match playerControlRef st with
  | Some c => m c
  | None => false
  end.

Definition set_pendingSeek (v : option float) (st : State) : State :=
  {| lastSentRef := lastSentRef st;
     pendingSeekRef := v;
     playerControlRef := playerControlRef st |}.

Definition set_lastSent (now : Z) (st : State) : State :=
  {| lastSentRef := now;
     pendingSeekRef := pendingSeekRef st;
     playerControlRef := playerControlRef st |}.

Definition set_playerControl (c : option Controls) (st : State) : State :=
  {| lastSentRef := lastSentRef st;
     pendingSeekRef := pendingSeekRef st;
     playerControlRef := c |}.

(** [Math.abs(localTime - expectedTime)] *)
Definition drift (localTime expectedTime : float) : float :=
  PrimFloat.abs (localTime - expectedTime)%float.

(** The listener of [socket.on("playback-update", ...)].  [playerTime] is
    what [getCurrentTime()] returns when it is called. *)
Definition on_playback_update (playerTime : float) (update : PlaybackUpdate)
    (st : State) : State * list Effect :=
  let expectedTime := playback_time update in
  let getCurrentTime := member has_getCurrentTime st in
  let seekTo := member has_seekTo st in
  let setPlaying := member has_setPlaying st in
  let localTime := if getCurrentTime then Some playerTime else None in
  let '(st1, e1) :=
    match localTime with
    | Some lt =>
        let diff := drift lt expectedTime in
        if (SEEK_THRESHOLD <? diff)%float && seekTo
        then (st, [SeekTo expectedTime])
        else (st, [])
    | None => (set_pendingSeek (Some expectedTime) st, [])
    end in
  (st1, e1 ++ (if setPlaying then [SetPlaying (is_playing update)] else [])).

Definition message (pr : Props) (playing : bool) (t : float) : PlaybackUpdate :=
  {| roomId := p_roomId pr;
     video_url := effectiveUrl pr;
     is_playing := playing;
     playback_time := t |}.

Definition call_onTimeUpdate (pr : Props) (t : float) : list Effect :=
  if has_onTimeUpdate pr then [OnTimeUpdate t] else [].

(** [handleLocalTimeUpdate]: the periodic time report of the player.
    [now] is [Date.now()]. *)
Definition handleLocalTimeUpdate (pr : Props) (now : Z) (time : float)
    (st : State) : State * list Effect :=
  if (now - lastSentRef st <? UPDATE_THROTTLE_MS)%Z
  then (st, call_onTimeUpdate pr time)
  else (set_lastSent now st,
        call_onTimeUpdate pr time
          ++ [Emit "playback-update" (message pr true time)]).

Definition handleLocalPlayPause (pr : Props) (isPlaying : bool)
    (currentTime : float) (st : State) : State * list Effect :=
  (st, [Emit "playback-update" (message pr isPlaying currentTime)]).

Definition handleLocalSeek (pr : Props) (seekTo : float) (st : State)
    : State * list Effect :=
  (st, call_onTimeUpdate pr seekTo
         ++ [Emit "playback-update" (message pr true seekTo)]).

(** [setPlayerControls]: the child registers its control object (it may be
    null or lack [seekTo]). *)
Definition setPlayerControls (controls : option Controls) (st : State)
    : State * list Effect :=
  let st1 := set_playerControl controls st in
  match pendingSeekRef st1 with
  | Some target =>
      if match controls with Some c => has_seekTo c | None => false end
      then (set_pendingSeek None st1, [SeekTo target])
      else (st1, [])
  | None => (st1, [])
  end.

(** The effect on the [seekToTime] prop: the parent asks for a seek. *)
Definition externalSeek (pr : Props) (seekToTime : option float) (st : State)
    : State * list Effect :=
  match seekToTime with
  | None => (st, [])
  | Some t =>
      if member has_seekTo st
      then (st, SeekTo t :: (if has_onSeekComplete pr then [OnSeekComplete] else []))
      else (set_pendingSeek (Some t) st, [])
  end.

(** The local events the child player reports: [onTimeUpdate],
    [onLocalPlay], [onLocalPause], [onLocalSeek]. *)
Inductive LocalEvent :=
| TimeUpdate (now : Z) (time : float)
| LocalPlay (t : float)
| LocalPause (t : float)
| LocalSeek (t : float).

Definition local_step (pr : Props) (ev : LocalEvent) (st : State)
    : State * list Effect :=
  match ev with
  | TimeUpdate now time => handleLocalTimeUpdate pr now time st
  | LocalPlay t => handleLocalPlayPause pr true t st
  | LocalPause t => handleLocalPlayPause pr false t st
  | LocalSeek t => handleLocalSeek pr t st
  end.

Fixpoint local_run (pr : Props) (evs : list LocalEvent) (st : State)
    : State * list Effect :=
  match evs with
  | [] => (st, [])
  | ev :: rest =>
      let '(st1, e1) := local_step pr ev st in
      let '(st2, e2) := local_run pr rest st1 in
      (st2, e1 ++ e2)
  end.

(** Projections of an effect list. *)
Definition seeks (es : list Effect) : list float :=
  flat_map (fun e => match e with SeekTo t => [t] | _ => [] end) es.

Definition playing_calls (es : list Effect) : list bool :=
  flat_map (fun e => match e with SetPlaying b => [b] | _ => [] end) es.

Definition broadcasts (es : list Effect) : list PlaybackUpdate :=
  flat_map (fun e => match e with Emit _ m => [m] | _ => [] end) es.

(** The control surface is ready: an object is registered and it has the
    three members the inbound handler uses, as the object built by
    [exposeControls] always has. *)
Definition surface_ready (st : State) : bool :=
  member has_getCurrentTime st && member has_seekTo st
    && member has_setPlaying st.

Definition full_controls : Controls :=
  {| has_getCurrentTime := true; has_seekTo := true; has_setPlaying := true |}.

(** What the throttle rule says, over a sequence of local events: a
    heartbeat goes out when at least [UPDATE_THROTTLE_MS] separate it from
    the last heartbeat that went out ([last]); play, pause and seek always
    go out. *)
Fixpoint spec_broadcasts (pr : Props) (last : Z) (evs : list LocalEvent)
    : list PlaybackUpdate :=
  match evs with
  | [] => []
  | TimeUpdate now time :: rest =>
      if (UPDATE_THROTTLE_MS <=? now - last)%Z
      then message pr true time :: spec_broadcasts pr now rest
      else spec_broadcasts pr last rest
  | LocalPlay t :: rest => message pr true t :: spec_broadcasts pr last rest
  | LocalPause t :: rest => message pr false t :: spec_broadcasts pr last rest
  | LocalSeek t :: rest => message pr true t :: spec_broadcasts pr last rest
  end.

(** The two ways a seek target reaches the component from outside: a
    remote update ([playerTime] as in [on_playback_update]) and the
    [seekToTime] prop. *)
Inductive Request :=
| Remote (playerTime : float) (update : PlaybackUpdate)
| External (t : float).

Definition target (r : Request) : float :=
  match r with
  | Remote _ update => playback_time update
  | External t => t
  end.

Definition request_step (pr : Props) (r : Request) (st : State)
    : State * list Effect :=
  match r with
  | Remote playerTime update => on_playback_update playerTime update st
  | External t => externalSeek pr (Some t) st
  end.

Fixpoint request_run (pr : Props) (rs : list Request) (st : State)
    : State * list Effect :=
  match rs with
  | [] => (st, [])
  | r :: rest =>
      let '(st1, e1) := request_step pr r st in
      let '(st2, e2) := request_run pr rest st1 in
      (st2, e1 ++ e2)
  end.

(** Listener of [request-state]: the reply sent to a new participant.
    [playerTime] is what [getCurrentTime()] returns and [playerState] what
    [getPlayerState?.()] returns (nothing when the member is missing).
    [getCurrentTime] is called without a test on a control object that is
    there: when the object lacks it the call throws ([None]).  [pr] holds
    the props of the render that installed the listener. *)
Definition on_request_state (pr : Props) (playerTime : float)
    (playerState : option Z) (st : State) : option (list Effect) :=
  match playerControlRef st with
  | None => Some [Emit "send-state" (message pr false 0)]
  | Some c =>
      if has_getCurrentTime c
      then Some [Emit "send-state"
                   (message pr
                      (match playerState with
                       | Some s => (s =? 1)%Z
                       | None => false
                       end)
                      playerTime)]
      else None
  end.




Definition is_time_update (ev : LocalEvent) : bool :=
  match ev with TimeUpdate _ _ => true | _ => false end.

(** The time reports of a sequence of local events. *)
Definition time_reports (evs : list LocalEvent) : list LocalEvent :=
  filter is_time_update evs.

(** The times of the local pauses of a sequence of local events. *)
Definition pause_times (evs : list LocalEvent) : list float :=
  flat_map (fun ev => match ev with LocalPause t => [t] | _ => [] end) evs.

(** Sample values for the examples. *)
Definition ready_state : State :=
  {| lastSentRef := 0; pendingSeekRef := None;
     playerControlRef := Some full_controls |}.

Definition sample_update (playing : bool) (t : float) : PlaybackUpdate :=
  {| roomId := "7"; video_url := None; is_playing := playing;
     playback_time := t |}.

Definition sample_props : Props :=
  {| p_roomId := "7"; effectiveUrl := None;
     has_onTimeUpdate := true; has_onSeekComplete := false |}.

End RoomVideoPlayer.

(** ** VideoPlayer: the control object given to [registerControls] *)

Module VideoPlayer.

(** Which element plays: the YouTube player ([playerRef.current]), the
    HTML5 video ([html5Ref.current]), or none of them yet. *)
Inductive Media := YouTube | Html5 | NoMedia.

Inductive MediaCall :=
| YtSeekTo (t : float)            (* playerRef.current.seekTo(t, true) *)
| YtPlayVideo
| YtPauseVideo
| Html5SetCurrentTime (t : float) (* html5Ref.current.currentTime = t *)
| Html5Play
| Html5Pause.

(** [timers] counts the 500 ms timeouts that have been armed and have not
    fired yet: every [seekTo] and [setPlaying] arms one and none is ever
    cancelled; all of them clear the one flag [suppressLocalRef]. *)
Record State := {
  isPlaying : bool;
  suppressLocalRef : bool;
  media : Media;
  issued : list MediaCall;
  timers : nat
}.

Definition seekTo (t : float) (st : State) : State :=
  {| isPlaying := isPlaying st;
     suppressLocalRef := true;
     media := media st;
     issued := issued st ++
               match media st with
               | YouTube => [YtSeekTo t]
               | Html5 => [Html5SetCurrentTime t]
               | NoMedia => []
               end;
     timers := S (timers st) |}.

Definition setPlaying (play : bool) (st : State) : State :=
  {| isPlaying := play;
     suppressLocalRef := true;
     media := media st;
     issued := issued st ++
               match media st with
               | YouTube => [if play then YtPlayVideo else YtPauseVideo]
               | Html5 => [if play then Html5Play else Html5Pause]
               | NoMedia => []
               end;
     timers := S (timers st) |}.

(** One of the armed timers fires (the one armed first, all having the
    same delay): [suppressLocalRef.current = false]. *)
Definition suppress_expired (st : State) : State :=
  match timers st with
  | O => st
  | S n =>
      {| isPlaying := isPlaying st;
         suppressLocalRef := false;
         media := media st;
         issued := issued st;
         timers := n |}
  end.

(** The calls [RoomVideoPlayer] makes on the control object, carried out. *)
Definition control (e : RoomVideoPlayer.Effect) (st : State) : State :=
  match e with
  | RoomVideoPlayer.SeekTo t => seekTo t st
  | RoomVideoPlayer.SetPlaying play => setPlaying play st
  | _ => st
  end.

Definition controls (es : list RoomVideoPlayer.Effect) (st : State) : State :=
  fold_left (fun s e => control e s) es st.

(** What the media element answers when it is read: the YouTube player's
    [getCurrentTime()] and [getPlayerState?.()], the HTML5 element's
    [currentTime] and [paused]. *)
Record Reading := {
  yt_time : float;
  yt_state : option Z;
  html5_time : float;
  html5_paused : bool
}.

(** [x || 0] on a number: 0 and NaN give 0. *)
Definition or_zero (v : float) : float :=
  if PrimFloat.is_nan v || PrimFloat.is_zero v then 0%float else v.

(** The [getCurrentTime] member of the control object. *)
Definition getCurrentTime (r : Reading) (st : State) : float :=
  match media st with
  | YouTube => yt_time r
  | Html5 => or_zero (html5_time r)
  | NoMedia => 0%float
  end.

(** The [getPlayerState] member: 1 is playing, 2 is paused.  With the
    YouTube player in place no video element is rendered, so the fallback
    reads no [paused] there. *)
Definition getPlayerState (r : Reading) (st : State) : Z :=
  let html5 :=
    match media st with
    | Html5 => if html5_paused r then 2%Z else 1%Z
    | _ => 1%Z
    end in
  match media st with
  | YouTube => match yt_state r with Some s => s | None => html5 end
  | _ => html5
  end.

(** What the player reports to its parent. *)
Inductive Callback :=
| OnLocalPlay (t : float)
| OnLocalPause (t : float)
| OnLocalSeek (t : float).

(** The state the YouTube player announces in [onStateChange], as the
    handler tells them apart. *)
Inductive StateChange := ToPlaying | ToPaused | ToEnded | ToOther.

Definition set_isPlaying (b : bool) (st : State) : State :=
  {| isPlaying := b; suppressLocalRef := suppressLocalRef st;
     media := media st; issued := issued st; timers := timers st |}.

(** [onStateChange]; [t] is [playerRef.current?.getCurrentTime?.() ?? 0]. *)
Definition onStateChange (e : StateChange) (t : float) (st : State)
    : State * list Callback :=
  if suppressLocalRef st then (st, [])
  else
    match e with
    | ToPlaying => (set_isPlaying true st, [OnLocalPlay t])
    | ToPaused | ToEnded => (set_isPlaying false st, [OnLocalPause t])
    | ToOther => (st, [])
    end.

Fixpoint state_changes (es : list (StateChange * float)) (st : State)
    : State * list Callback :=
  match es with
  | [] => (st, [])
  | (e, t) :: rest =>
      let '(st1, c1) := onStateChange e t st in
      let '(st2, c2) := state_changes rest st1 in
      (st2, c1 ++ c2)
  end.

Definition issue (k : MediaCall) (st : State) : State :=
  {| isPlaying := isPlaying st; suppressLocalRef := suppressLocalRef st;
     media := media st; issued := issued st ++ [k]; timers := timers st |}.

(** [togglePlay]; [t] is the current time read from the element that
    plays. *)
Definition togglePlay (t : float) (st : State) : State * list Callback :=
  match media st with
  | YouTube =>
      if isPlaying st
      then (set_isPlaying false (issue YtPauseVideo st), [OnLocalPause t])
      else (set_isPlaying true (issue YtPlayVideo st), [OnLocalPlay t])
  | Html5 =>
      if isPlaying st
      then (set_isPlaying false (issue Html5Pause st), [OnLocalPause t])
      else (set_isPlaying true (issue Html5Play st), [OnLocalPlay t])
  | NoMedia => (st, [])
  end.

(** The wiring of [RoomVideoPlayer]: the callbacks become local events. *)
Definition local_event (c : Callback) : RoomVideoPlayer.LocalEvent :=
  match c with
  | OnLocalPlay t => RoomVideoPlayer.LocalPlay t
  | OnLocalPause t => RoomVideoPlayer.LocalPause t
  | OnLocalSeek t => RoomVideoPlayer.LocalSeek t
  end.

(** Sample values for the examples. *)
Definition sample_reading : Reading :=
  {| yt_time := 12%float; yt_state := Some 2%Z; html5_time := 3%float;
     html5_paused := true |}.

Definition empty_player : State :=
  {| isPlaying := false; suppressLocalRef := false; media := NoMedia;
     issued := []; timers := 0 |}.

(** A paused HTML5 player, for the examples. *)
Definition paused_player : State :=
  {| isPlaying := false; suppressLocalRef := false; media := Html5;
     issued := []; timers := 0 |}.

End VideoPlayer.

(** ** Whiteboard *)

Module Whiteboard.

Inductive Tool := Pen | Eraser.
Inductive Kind := Start | Move.

Record StrokePoint := { type : Kind; x : float; y : float }.

Record StoredStroke := {
  points : list StrokePoint;
  color : string;
  tool : option Tool;
  size : option float
}.

(** The 2D context.  [globalCompositeOperation], [strokeStyle] and
    [lineWidth] are the three properties the component writes; [calls] is
    the sequence of drawing calls made since the bitmap was last reset, a
    [Stroke] carrying the properties in force when [stroke()] ran. *)
Inductive CompositeOp := SourceOver | DestinationOut.

Inductive Call :=
| BeginPath
| MoveTo (px py : float)
| LineTo (px py : float)
| Stroke (op : CompositeOp) (style : string) (width : float)
| ClosePath
| ClearRect.

Record Ctx := {
  globalCompositeOperation : CompositeOp;
  strokeStyle : string;
  lineWidth : float;
  calls : list Call
}.

Definition set_composite (op : CompositeOp) (c : Ctx) : Ctx :=
  {| globalCompositeOperation := op; strokeStyle := strokeStyle c;
     lineWidth := lineWidth c; calls := calls c |}.

Definition set_strokeStyle (s : string) (c : Ctx) : Ctx :=
  {| globalCompositeOperation := globalCompositeOperation c; strokeStyle := s;
     lineWidth := lineWidth c; calls := calls c |}.

Definition set_lineWidth (w : float) (c : Ctx) : Ctx :=
  {| globalCompositeOperation := globalCompositeOperation c;
     strokeStyle := strokeStyle c; lineWidth := w; calls := calls c |}.

Definition call (k : Call) (c : Ctx) : Ctx :=
  {| globalCompositeOperation := globalCompositeOperation c;
     strokeStyle := strokeStyle c; lineWidth := lineWidth c;
     calls := calls c ++ [k] |}.

Definition beginPath := call BeginPath.
Definition moveTo (px py : float) := call (MoveTo px py).
Definition lineTo (px py : float) := call (LineTo px py).
Definition closePath := call ClosePath.
Definition clearRect := call ClearRect.
Definition stroke (c : Ctx) : Ctx :=
  call (Stroke (globalCompositeOperation c) (strokeStyle c) (lineWidth c)) c.

(** [size ?? fallback] *)
Definition nullish (v : option float) (fallback : float) : float :=
  match v with Some s => s | None => fallback end.

(** The tool set-up shared by [drawStroke], the [draw] listener,
    [startDrawing] and [draw]. *)
Definition apply_tool (t : Tool) (col : string) (penW eraserW : float)
    (c : Ctx) : Ctx :=
  match t with
  | Eraser => set_lineWidth eraserW (set_composite DestinationOut c)
  | Pen => set_lineWidth penW (set_strokeStyle col (set_composite SourceOver c))
  end.

(** The loop of [drawStroke] over the points. *)
Fixpoint trace_points (isNewPath : bool) (ps : list StrokePoint) (c : Ctx)
    : Ctx :=
  match ps with
  | [] => c
  | p :: rest =>
      if match type p with Start => true | Move => false end || isNewPath
      then trace_points false rest (moveTo (x p) (y p) (beginPath c))
      else trace_points isNewPath rest (stroke (lineTo (x p) (y p) c))
  end.

(** The save / restore around a paint, as [drawStroke] and the [draw]
    listener write it. *)
Definition restore (prev : Ctx) (c : Ctx) : Ctx :=
  set_lineWidth (lineWidth prev)
    (set_strokeStyle (strokeStyle prev)
       (set_composite (globalCompositeOperation prev) c)).

(** [drawStroke(points, color, tool = 'pen', size)], on the context held by
    [contextRef]; [penSize] and [eraserSize] are the values captured by the
    closure that calls it. *)
Definition drawStroke (penSize eraserSize : float) (pts : list StrokePoint)
    (col : string) (t : Tool) (sz : option float) (ctx : option Ctx)
    : option Ctx :=
  match ctx with
  | None => None
  | Some c =>
      match pts with
      | [] => Some c
      | _ :: _ =>
          let c1 := apply_tool t col (nullish sz penSize)
                      (nullish sz eraserSize) c in
          let c2 := trace_points true pts c1 in
          Some (restore c c2)
      end
  end.

(** Values of the first render, captured by the closures of the mount
    effects ([setupCanvas], the channel listeners, the history load). *)
Definition INITIAL_COLOR : string := "#3ecf8e".
Definition INITIAL_PEN_SIZE : float := 5%float.
Definition INITIAL_ERASER_SIZE : float := 18%float.

Definition tool_or_pen (t : option Tool) : Tool :=
  match t with Some v => v | None => Pen end.

(** Payloads of the broadcast events and rows of the stroke store. *)
Record DrawPayload := {
  d_userId : string; d_type : Kind; d_x : float; d_y : float;
  d_color : string; d_tool : option Tool; d_size : option float
}.

Record BatchPayload := {
  b_userId : string; b_points : list StrokePoint;
  b_color : string; b_tool : option Tool; b_size : option float
}.

(** [Number(s)]: the number the string [s] converts to (NaN when [s] is
    not a numeral), kept as the string it is converted from. *)
Inductive JsNumber := NumberOf (s : string).

Record StrokeRow := {
  room_id : JsNumber; strokes : list StrokePoint;
  r_color : string; r_tool : option Tool; r_size : option float
}.

Inductive Outgoing :=
| SendDraw (p : DrawPayload)          (* channel.send, event 'draw' *)
| SendDrawBatch (p : BatchPayload)    (* channel.send, event 'draw_batch' *)
| SendClear (uid : string)            (* channel.send, event 'clear' *)
| Track (uid : string)                (* channel.track *)
| GetStrokes                          (* GET  /strokes/:room *)
| PostStroke (row : StrokeRow)        (* POST /strokes *)
| DeleteStrokes.                      (* DELETE /strokes/:room *)

(** What the [sendBatchedPoints] of one render has captured: the colour,
    the tool and the two sizes of that render. *)
Record Closure := {
  cl_color : string;
  cl_tool : Tool;
  cl_penSize : float;
  cl_eraserSize : float
}.

(** [batchTimerRef] holds the running interval, that is the closure
    [setInterval] was given, or nothing. *)
Record Whiteboard := {
  roomId : string;
  userId : string;
  contextRef : option Ctx;
  isConnected : bool;
  isDrawing : bool;
  currentColor : string;
  currentTool : Tool;
  penSize : float;
  eraserSize : float;
  pointsBuffer : list StrokePoint;
  batchTimerRef : option Closure;
  currentPathRef : list StrokePoint;
  strokesStoreRef : list StoredStroke
}.

Definition mount (room uid : string) : Whiteboard :=
  {| roomId := room; userId := uid; contextRef := None;
     isConnected := false; isDrawing := false;
     currentColor := INITIAL_COLOR; currentTool := Pen;
     penSize := INITIAL_PEN_SIZE; eraserSize := INITIAL_ERASER_SIZE;
     pointsBuffer := []; batchTimerRef := None; currentPathRef := [];
     strokesStoreRef := [] |}.

(** Field updates of the component state. *)
Definition set_contextRef (v : option Ctx) (w : Whiteboard) : Whiteboard :=
  {| roomId := roomId w; userId := userId w; contextRef := v;
     isConnected := isConnected w; isDrawing := isDrawing w;
     currentColor := currentColor w; currentTool := currentTool w;
     penSize := penSize w; eraserSize := eraserSize w;
     pointsBuffer := pointsBuffer w; batchTimerRef := batchTimerRef w;
     currentPathRef := currentPathRef w;
     strokesStoreRef := strokesStoreRef w |}.

Definition set_isConnected (v : bool) (w : Whiteboard) : Whiteboard :=
  {| roomId := roomId w; userId := userId w; contextRef := contextRef w;
     isConnected := v; isDrawing := isDrawing w;
     currentColor := currentColor w; currentTool := currentTool w;
     penSize := penSize w; eraserSize := eraserSize w;
     pointsBuffer := pointsBuffer w; batchTimerRef := batchTimerRef w;
     currentPathRef := currentPathRef w;
     strokesStoreRef := strokesStoreRef w |}.

Definition set_isDrawing (v : bool) (w : Whiteboard) : Whiteboard :=
  {| roomId := roomId w; userId := userId w; contextRef := contextRef w;
     isConnected := isConnected w; isDrawing := v;
     currentColor := currentColor w; currentTool := currentTool w;
     penSize := penSize w; eraserSize := eraserSize w;
     pointsBuffer := pointsBuffer w; batchTimerRef := batchTimerRef w;
     currentPathRef := currentPathRef w;
     strokesStoreRef := strokesStoreRef w |}.

Definition set_currentColor (v : string) (w : Whiteboard) : Whiteboard :=
  {| roomId := roomId w; userId := userId w; contextRef := contextRef w;
     isConnected := isConnected w; isDrawing := isDrawing w;
     currentColor := v; currentTool := currentTool w; penSize := penSize w;
     eraserSize := eraserSize w; pointsBuffer := pointsBuffer w;
     batchTimerRef := batchTimerRef w; currentPathRef := currentPathRef w;
     strokesStoreRef := strokesStoreRef w |}.

Definition set_currentTool (v : Tool) (w : Whiteboard) : Whiteboard :=
  {| roomId := roomId w; userId := userId w; contextRef := contextRef w;
     isConnected := isConnected w; isDrawing := isDrawing w;
     currentColor := currentColor w; currentTool := v; penSize := penSize w;
     eraserSize := eraserSize w; pointsBuffer := pointsBuffer w;
     batchTimerRef := batchTimerRef w; currentPathRef := currentPathRef w;
     strokesStoreRef := strokesStoreRef w |}.

Definition set_penSize (v : float) (w : Whiteboard) : Whiteboard :=
  {| roomId := roomId w; userId := userId w; contextRef := contextRef w;
     isConnected := isConnected w; isDrawing := isDrawing w;
     currentColor := currentColor w; currentTool := currentTool w;
     penSize := v; eraserSize := eraserSize w;
     pointsBuffer := pointsBuffer w; batchTimerRef := batchTimerRef w;
     currentPathRef := currentPathRef w;
     strokesStoreRef := strokesStoreRef w |}.

Definition set_eraserSize (v : float) (w : Whiteboard) : Whiteboard :=
  {| roomId := roomId w; userId := userId w; contextRef := contextRef w;
     isConnected := isConnected w; isDrawing := isDrawing w;
     currentColor := currentColor w; currentTool := currentTool w;
     penSize := penSize w; eraserSize := v; pointsBuffer := pointsBuffer w;
     batchTimerRef := batchTimerRef w; currentPathRef := currentPathRef w;
     strokesStoreRef := strokesStoreRef w |}.

Definition set_pointsBuffer (v : list StrokePoint) (w : Whiteboard) : Whiteboard :=
  {| roomId := roomId w; userId := userId w; contextRef := contextRef w;
     isConnected := isConnected w; isDrawing := isDrawing w;
     currentColor := currentColor w; currentTool := currentTool w;
     penSize := penSize w; eraserSize := eraserSize w; pointsBuffer := v;
     batchTimerRef := batchTimerRef w; currentPathRef := currentPathRef w;
     strokesStoreRef := strokesStoreRef w |}.

Definition set_batchTimerRef (v : option Closure) (w : Whiteboard) : Whiteboard :=
  {| roomId := roomId w; userId := userId w; contextRef := contextRef w;
     isConnected := isConnected w; isDrawing := isDrawing w;
     currentColor := currentColor w; currentTool := currentTool w;
     penSize := penSize w; eraserSize := eraserSize w;
     pointsBuffer := pointsBuffer w; batchTimerRef := v;
     currentPathRef := currentPathRef w;
     strokesStoreRef := strokesStoreRef w |}.

Definition set_currentPathRef (v : list StrokePoint) (w : Whiteboard) : Whiteboard :=
  {| roomId := roomId w; userId := userId w; contextRef := contextRef w;
     isConnected := isConnected w; isDrawing := isDrawing w;
     currentColor := currentColor w; currentTool := currentTool w;
     penSize := penSize w; eraserSize := eraserSize w;
     pointsBuffer := pointsBuffer w; batchTimerRef := batchTimerRef w;
     currentPathRef := v; strokesStoreRef := strokesStoreRef w |}.

Definition set_strokesStoreRef (v : list StoredStroke) (w : Whiteboard) : Whiteboard :=
  {| roomId := roomId w; userId := userId w; contextRef := contextRef w;
     isConnected := isConnected w; isDrawing := isDrawing w;
     currentColor := currentColor w; currentTool := currentTool w;
     penSize := penSize w; eraserSize := eraserSize w;
     pointsBuffer := pointsBuffer w; batchTimerRef := batchTimerRef w;
     currentPathRef := currentPathRef w; strokesStoreRef := v |}.

(** A call on the context, when [contextRef] holds one. *)
Definition on_ctx (f : Ctx -> Ctx) (w : Whiteboard) : Whiteboard :=
  set_contextRef (option_map f (contextRef w)) w.

Definition push_stroke (s : StoredStroke) (w : Whiteboard) : Whiteboard :=
  set_strokesStoreRef (strokesStoreRef w ++ [s]) w.

(** [repaintAll], with the sizes captured by the [drawStroke] it calls. *)
Definition repaintAll (pen eraser : float) (w : Whiteboard) : Whiteboard :=
  match contextRef w with
  | None => w
  | Some _ =>
      set_contextRef
        (fold_left
           (fun ctx s =>
              drawStroke pen eraser (points s) (color s)
                (tool_or_pen (tool s)) (size s) ctx)
           (strokesStoreRef w) (contextRef w))
        w
  end.

(** The context after [setupCanvas] has resized the canvas: assigning
    [canvas.width] resets the bitmap and the context, then the defaults are
    written. *)
Definition fresh_context : Ctx :=
  {| globalCompositeOperation := SourceOver; strokeStyle := INITIAL_COLOR;
     lineWidth := 5%float; calls := [] |}.

(** [setupCanvas], run on mount and on every resize. *)
Definition setupCanvas (w : Whiteboard) : Whiteboard :=
  repaintAll INITIAL_PEN_SIZE INITIAL_ERASER_SIZE
    (set_contextRef (Some fresh_context) w).

(** [setCurrentColor] and the effect that follows a change of
    [currentColor]. *)
Definition setCurrentColor (c : string) (w : Whiteboard) : Whiteboard :=
  if String.eqb c (currentColor w) then w
  else on_ctx (set_strokeStyle c) (set_currentColor c w).

(** Listener of the [draw_batch] broadcast. *)
Definition on_draw_batch (p : BatchPayload) (w : Whiteboard) : Whiteboard :=
  if String.eqb (b_userId p) (userId w) then w
  else
    let t := tool_or_pen (b_tool p) in
    let w1 :=
      set_contextRef
        (drawStroke INITIAL_PEN_SIZE INITIAL_ERASER_SIZE (b_points p)
           (b_color p) t (b_size p) (contextRef w)) w in
    push_stroke {| points := b_points p; color := b_color p;
                   tool := Some t; size := b_size p |} w1.

(** Listener of the [draw] broadcast (one point). *)
Definition on_draw (p : DrawPayload) (w : Whiteboard) : Whiteboard :=
  if String.eqb (d_userId p) (userId w) then w
  else
    match contextRef w with
    | None => w
    | Some c =>
        let c1 := apply_tool (tool_or_pen (d_tool p)) (d_color p)
                    (nullish (d_size p) INITIAL_PEN_SIZE)
                    (nullish (d_size p) INITIAL_ERASER_SIZE) c in
        let c2 := match d_type p with
                  | Start => moveTo (d_x p) (d_y p) (beginPath c1)
                  | Move => stroke (lineTo (d_x p) (d_y p) c1)
                  end in
        set_contextRef (Some (restore c c2)) w
    end.

(** Listener of the [clear] broadcast; it does not read the payload. *)
Definition on_clear (uid : string) (w : Whiteboard) : Whiteboard :=
  on_ctx clearRect w.

(** The subscription callback, up to the request for the stored strokes. *)
Definition on_subscribed (w : Whiteboard) : Whiteboard * list Outgoing :=
  (set_isConnected true w, [Track (userId w); GetStrokes]).

Definition load_row (w : Whiteboard) (r : StrokeRow) : Whiteboard :=
  let w1 :=
    set_contextRef
      (drawStroke INITIAL_PEN_SIZE INITIAL_ERASER_SIZE (strokes r) (r_color r)
         (tool_or_pen (r_tool r)) (r_size r) (contextRef w)) w in
  push_stroke {| points := strokes r; color := r_color r;
                 tool := Some (tool_or_pen (r_tool r)); size := r_size r |} w1.

(** The subscription callback, once the stored strokes have arrived. *)
Definition on_strokes_loaded (data : list StrokeRow) (w : Whiteboard)
    : Whiteboard :=
  let w1 := fold_left load_row data w in
  match rev data with
  | [] => w1
  | r :: _ => setCurrentColor (r_color r) w1
  end.

Definition tool_size (w : Whiteboard) : float :=
  match currentTool w with Eraser => eraserSize w | Pen => penSize w end.

Definition draw_payload (k : Kind) (px py : float) (w : Whiteboard)
    : DrawPayload :=
  {| d_userId := userId w; d_type := k; d_x := px; d_y := py;
     d_color := currentColor w; d_tool := Some (currentTool w);
     d_size := Some (tool_size w) |}.

(** The closure of the handlers of the current render. *)
Definition closure (w : Whiteboard) : Closure :=
  {| cl_color := currentColor w; cl_tool := currentTool w;
     cl_penSize := penSize w; cl_eraserSize := eraserSize w |}.

Definition closure_size (cl : Closure) : float :=
  match cl_tool cl with Eraser => cl_eraserSize cl | Pen => cl_penSize cl end.

(** [sendBatchedPoints], as the closure [cl] runs it: the buffer and the
    userId are refs and are read when it runs, colour, tool and size are
    those it has captured. *)
Definition sendBatchedPoints (cl : Closure) (w : Whiteboard)
    : Whiteboard * list Outgoing :=
  match pointsBuffer w with
  | [] => (w, [])
  | _ :: _ =>
      (set_pointsBuffer [] w,
       [SendDrawBatch {| b_userId := userId w; b_points := pointsBuffer w;
                         b_color := cl_color cl;
                         b_tool := Some (cl_tool cl);
                         b_size := Some (closure_size cl) |}])
  end.

(** [startDrawing] (mouse down at [offsetX], [offsetY]) *)
Definition startDrawing (offsetX offsetY : float) (w : Whiteboard)
    : Whiteboard * list Outgoing :=
  match contextRef w with
  | None => (w, [])
  | Some c =>
      let c1 := apply_tool (currentTool w) (currentColor w) (penSize w)
                  (eraserSize w) c in
      let c2 := moveTo offsetX offsetY (beginPath c1) in
      let p := {| type := Start; x := offsetX; y := offsetY |} in
      let w1 := set_isDrawing true (set_contextRef (Some c2) w) in
      let w2 := set_currentPathRef [p] w1 in
      let w3 := set_pointsBuffer (pointsBuffer w2 ++ [p]) w2 in
      let w4 := match batchTimerRef w3 with
                | Some _ => w3
                | None => set_batchTimerRef (Some (closure w)) w3
                end in
      (w4, [SendDraw (draw_payload Start offsetX offsetY w)])
  end.

(** [draw] (mouse move) *)
Definition draw (offsetX offsetY : float) (w : Whiteboard)
    : Whiteboard * list Outgoing :=
  if negb (isDrawing w) then (w, [])
  else
    match contextRef w with
    | None => (w, [])
    | Some c =>
        let c1 := apply_tool (currentTool w) (currentColor w) (penSize w)
                    (eraserSize w) c in
        let c2 := stroke (lineTo offsetX offsetY c1) in
        let p := {| type := Move; x := offsetX; y := offsetY |} in
        let w1 := set_contextRef (Some c2) w in
        let w2 := set_pointsBuffer (pointsBuffer w1 ++ [p]) w1 in
        let w3 := set_currentPathRef (currentPathRef w2 ++ [p]) w2 in
        (w3, [SendDraw (draw_payload Move offsetX offsetY w)])
    end.

(** The end of [stopDrawing]: what runs after the POST has settled, or at
    once when there was nothing to persist. *)
Definition stopDrawing_finish (w : Whiteboard) : Whiteboard :=
  on_ctx (set_composite SourceOver) (set_currentPathRef [] w).

(** [stopDrawing] up to the awaited POST; with nothing to persist there is
    no await and the end runs at once. *)
Definition stopDrawing_begin (w : Whiteboard) : Whiteboard * list Outgoing :=
  let w1 := set_isDrawing false (on_ctx closePath w) in
  let '(w2, e2) := sendBatchedPoints (closure w1) w1 in
  let w3 := set_batchTimerRef None w2 in
  match currentPathRef w3 with
  | [] => (stopDrawing_finish w3, e2)
  | _ :: _ =>
      let path := currentPathRef w3 in
      let w4 :=
        push_stroke {| points := path; color := currentColor w3;
                       tool := Some (currentTool w3);
                       size := Some (tool_size w3) |} w3 in
      (w4, e2 ++ [PostStroke {| room_id := NumberOf (roomId w3);
                                strokes := path;
                                r_color := currentColor w3;
                                r_tool := Some (currentTool w3);
                                r_size := Some (tool_size w3) |}])
  end.

(** [stopDrawing] (mouse up or leave) followed at once by its end: the
    POST settles before anything else happens. *)
Definition stopDrawing (w : Whiteboard) : Whiteboard * list Outgoing :=
  let '(w1, e) := stopDrawing_begin w in (stopDrawing_finish w1, e).

(** [clearCanvas].  [context.clearRect] is called without a test: with no
    context the call throws ([None]).  The clear broadcast follows the
    awaited DELETE; it changes no state and reads only the userId ref, so
    it is listed with the call, ahead of what later events send. *)
Definition clearCanvas (w : Whiteboard) : option (Whiteboard * list Outgoing) :=
  match contextRef w with
  | None => None
  | Some c =>
      Some (set_contextRef (Some (clearRect c)) w,
            [DeleteStrokes; SendClear (userId w)])
  end.

(** The toolbar. *)
Definition pickColor (c : string) (w : Whiteboard) : Whiteboard :=
  setCurrentColor c (set_currentTool Pen w).

Definition pickSize (v : float) (w : Whiteboard) : Whiteboard :=
  match currentTool w with
  | Eraser => set_eraserSize v w
  | Pen => set_penSize v w
  end.

(** What can happen to a mounted whiteboard.  A handler runs until it
    returns or awaits before the next event is taken.  [stopDrawing] awaits
    its POST: [MouseUp] runs it up to there and [PostSettled] is the
    continuation that runs once the POST has settled, so that any event
    may fall between the two.  The continuation is accepted at any time
    (also with no POST under way), which only adds runs to the ones the
    page has.  [BatchTimer] is a tick of the interval [startDrawing] has
    armed: it runs the [sendBatchedPoints] handed to [setInterval] then,
    with the colour, tool and sizes of that render. *)
Inductive Event :=
| Resize                                  (* mount, resize: setupCanvas *)
| Subscribed
| StrokesLoaded (data : list StrokeRow)
| RemoteDrawBatch (p : BatchPayload)
| RemoteDraw (p : DrawPayload)
| RemoteClear (uid : string)
| MouseDown (px py : float)
| MouseMove (px py : float)
| MouseUp
| BatchTimer                              (* the 10 ms interval fires *)
| ClearClick
| PickTool (t : Tool)
| PickColor (c : string)
| PickSize (v : float)
| PostSettled.                            (* the awaited POST has settled *)

Definition step (ev : Event) (w : Whiteboard) : Whiteboard * list Outgoing :=
  match ev with
  | Resize => (setupCanvas w, [])
  | Subscribed => on_subscribed w
  | StrokesLoaded data => (on_strokes_loaded data w, [])
  | RemoteDrawBatch p => (on_draw_batch p w, [])
  | RemoteDraw p => (on_draw p w, [])
  | RemoteClear uid => (on_clear uid w, [])
  | MouseDown px py => startDrawing px py w
  | MouseMove px py => draw px py w
  | MouseUp => stopDrawing_begin w
  | BatchTimer =>
      match batchTimerRef w with
      | Some cl => sendBatchedPoints cl w
      | None => (w, [])
      end
  | ClearClick =>
      match clearCanvas w with Some r => r | None => (w, []) end
  | PickTool t => (set_currentTool t w, [])
  | PickColor c => (pickColor c w, [])
  | PickSize v => (pickSize v w, [])
  | PostSettled => (stopDrawing_finish w, [])
  end.

Fixpoint run (evs : list Event) (w : Whiteboard) : Whiteboard * list Outgoing :=
  match evs with
  | [] => (w, [])
  | ev :: rest =>
      let '(w1, e1) := step ev w in
      let '(w2, e2) := run rest w1 in
      (w2, e1 ++ e2)
  end.

Definition is_broadcast (o : Outgoing) : bool :=
  match o with
  | SendDraw _ | SendDrawBatch _ | SendClear _ => true
  | _ => false
  end.


(** The calls a context has received, none when there is no context. *)
Definition painted (w : Whiteboard) : list Call :=
  match contextRef w with Some c => calls c | None => [] end.

(** A context with the same three properties and another call history. *)
Definition with_calls (l : list Call) (c : Ctx) : Ctx :=
  {| globalCompositeOperation := globalCompositeOperation c;
     strokeStyle := strokeStyle c; lineWidth := lineWidth c; calls := l |}.

(** The three properties of a context that a paint may leak. *)
Definition settings (c : Ctx) : CompositeOp * string * float :=
  (globalCompositeOperation c, strokeStyle c, lineWidth c).

(** The calls [drawStroke] makes on a context whose stroke style is
    [style] and which has received no call yet. *)
Definition paint_calls (pen eraser : float) (style : string)
    (pts : list StrokePoint) (col : string) (t : Tool) (sz : option float)
    : list Call :=
  match drawStroke pen eraser pts col t sz
          (Some {| globalCompositeOperation := SourceOver;
                   strokeStyle := style; lineWidth := 5%float;
                   calls := [] |}) with
  | Some c => calls c
  | None => []
  end.

(** The calls one logged stroke makes when [repaintAll] replays it. *)
Definition stroke_calls (pen eraser : float) (style : string)
    (s : StoredStroke) : list Call :=
  paint_calls pen eraser style (points s) (color s) (tool_or_pen (tool s))
    (size s).

(** One local stroke: the button goes down, the pointer moves through
    [moves], the button goes up and the stroke's POST settles. *)
Definition local_stroke (px py : float) (moves : list (float * float))
    : list Event :=
  MouseDown px py :: map (fun m => MouseMove (fst m) (snd m)) moves
    ++ [MouseUp; PostSettled].

(** The tools in hand: what the pointer handlers read from the state. *)
Definition tools (w : Whiteboard) : Tool * string * float * float :=
  (currentTool w, currentColor w, penSize w, eraserSize w).

(** The context properties while a local stroke made with the tools of [w]
    is being drawn on a context whose stroke style was [style]. *)
Definition stroke_settings (w : Whiteboard) (style : string)
    : CompositeOp * string * float :=
  match currentTool w with
  | Eraser => (DestinationOut, style, eraserSize w)
  | Pen => (SourceOver, currentColor w, penSize w)
  end.

(** Sample values for the examples. *)
Definition pt (k : Kind) (px py : float) : StrokePoint :=
  {| type := k; x := px; y := py |}.

Definition sample_batch (uid : string) (t : Tool) : BatchPayload :=
  {| b_userId := uid; b_points := [pt Start 1 1; pt Move 2 3];
     b_color := "#f43f5e"; b_tool := Some t; b_size := Some 4%float |}.

Definition sample_draw (uid : string) : DrawPayload :=
  {| d_userId := uid; d_type := Move; d_x := 7%float; d_y := 8%float;
     d_color := "#60a5fa"; d_tool := Some Eraser; d_size := None |}.

(** A mounted board on which another participant has drawn one batch. *)
Definition sample_board : Whiteboard :=
  fst (run [Resize; Subscribed; RemoteDrawBatch (sample_batch "other" Pen)]
         (mount "12" "me")).

(** The log entry the history load builds from a stored row. *)
Definition row_entry (r : StrokeRow) : StoredStroke :=
  {| points := strokes r; color := r_color r;
     tool := Some (tool_or_pen (r_tool r)); size := r_size r |}.

(** The log entry and the stored row [stopDrawing] builds for the path
    [pts] drawn with the tools of [w]. *)
Definition local_entry (w : Whiteboard) (pts : list StrokePoint)
    : StoredStroke :=
  {| points := pts; color := currentColor w; tool := Some (currentTool w);
     size := Some (tool_size w) |}.

Definition local_row (w : Whiteboard) (pts : list StrokePoint) : StrokeRow :=
  {| room_id := NumberOf (roomId w); strokes := pts;
     r_color := currentColor w;
     r_tool := Some (currentTool w); r_size := Some (tool_size w) |}.

(** Projections of what a board has sent. *)
Definition batch_points (out : list Outgoing) : list StrokePoint :=
  flat_map (fun o => match o with SendDrawBatch p => b_points p | _ => [] end)
    out.

Definition draw_points (out : list Outgoing) : list StrokePoint :=
  flat_map
    (fun o =>
       match o with
       | SendDraw p => [pt (d_type p) (d_x p) (d_y p)]
       | _ => []
       end) out.

Definition posted (out : list Outgoing) : list StrokeRow :=
  flat_map (fun o => match o with PostStroke r => [r] | _ => [] end) out.

(** The userId a message carries, when it carries one. *)
Definition sender (o : Outgoing) : option string :=
  match o with
  | SendDraw p => Some (d_userId p)
  | SendDrawBatch p => Some (b_userId p)
  | SendClear uid => Some uid
  | Track uid => Some uid
  | GetStrokes | PostStroke _ | DeleteStrokes => None
  end.

Definition senders (out : list Outgoing) : list string :=
  flat_map (fun o => match sender o with Some uid => [uid] | None => [] end)
    out.

(** What happens between the press and the release of a stroke: the
    pointer moves, the 10 ms flush timer fires, the POST of an earlier
    stroke settles. *)
Inductive Mid :=
| Moved (px py : float)
| Tick
| Settled.

Definition mid_event (m : Mid) : Event :=
  match m with
  | Moved px py => MouseMove px py
  | Tick => BatchTimer
  | Settled => PostSettled
  end.

Definition mid_point (m : Mid) : list StrokePoint :=
  match m with
  | Moved px py => [pt Move px py]
  | Tick | Settled => []
  end.

Definition mid_points (mid : list Mid) : list StrokePoint :=
  flat_map mid_point mid.

(** No POST settles at [m]. *)
Definition quiet (m : Mid) : bool :=
  match m with Settled => false | Moved _ _ | Tick => true end.

(** The closure the flush timer runs during a stroke begun on [w]: that
    of the interval still running, else that of the press. *)
Definition timer_closure (w : Whiteboard) : Closure :=
  match batchTimerRef w with Some cl => cl | None => closure w end.

(** The context [c] once the tool of [w] has been set up on it. *)
Definition retooled (w : Whiteboard) (c : Ctx) : Ctx :=
  apply_tool (currentTool w) (currentColor w) (penSize w) (eraserSize w) c.

(** The board [w] is in the middle of a stroke begun on [w0]: same tools,
    room, user and log, the button down and the flush timer running. *)
Definition in_stroke (w0 w : Whiteboard) : Prop :=
  tools w = tools w0 /\ roomId w = roomId w0
  /\ strokesStoreRef w = strokesStoreRef w0
  /\ isDrawing w = true /\ batchTimerRef w = Some (timer_closure w0)
  /\ userId w = userId w0.

Definition ticked_stroke (px py : float) (mid : list Mid) : list Event :=
  MouseDown px py :: map mid_event mid ++ [MouseUp].

(** The path a stroke has in [currentPathRef] after [mid], starting from
    [path]: a settled POST empties it. *)
Fixpoint path_kept (path : list StrokePoint) (mid : list Mid)
    : list StrokePoint :=
  match mid with
  | [] => path
  | m :: rest =>
      path_kept (if quiet m then path ++ mid_point m else []) rest
  end.

(** The stored row and the log entry a release makes of the path [pts]
    drawn with the tools of [w]: none when the path is empty. *)
Definition rows (w : Whiteboard) (pts : list StrokePoint) : list StrokeRow :=
  match pts with [] => [] | _ :: _ => [local_row w pts] end.

Definition entries (w : Whiteboard) (pts : list StrokePoint)
    : list StoredStroke :=
  match pts with [] => [] | _ :: _ => [local_entry w pts] end.

(** The batches among what a board has sent, and what labels a batch. *)
Definition batches (out : list Outgoing) : list BatchPayload :=
  flat_map (fun o => match o with SendDrawBatch p => [p] | _ => [] end) out.

Definition batch_label (p : BatchPayload)
    : string * string * option Tool * option float :=
  (b_userId p, b_color p, b_tool p, b_size p).

Definition closure_label (uid : string) (cl : Closure)
    : string * string * option Tool * option float :=
  (uid, cl_color cl, Some (cl_tool cl), Some (closure_size cl)).

(** The segments drawn: the [lineTo] calls among [cs]. *)
Definition line_count (cs : list Call) : nat :=
  List.length
    (filter (fun k => match k with LineTo _ _ => true | _ => false end) cs).

Definition move_count (pts : list StrokePoint) : nat :=
  List.length
    (filter (fun p => match type p with Move => true | Start => false end) pts).

(** The points of a stroke arriving one by one as [draw] broadcasts of
    the participant [uid]. *)
Definition point_payload (uid col : string) (t : option Tool)
    (sz : option float) (p : StrokePoint) : DrawPayload :=
  {| d_userId := uid; d_type := type p; d_x := x p; d_y := y p;
     d_color := col; d_tool := t; d_size := sz |}.

Definition feed_draw (uid col : string) (t : option Tool) (sz : option float)
    (pts : list StrokePoint) (w : Whiteboard) : Whiteboard :=
  fold_left (fun b p => on_draw (point_payload uid col t sz p) b) pts w.

End Whiteboard.

(** ** Dashboard: the thumbnail of a room *)

Module Dashboard.

Local Open Scope Z_scope.

(** [ToInt32]: the signed 32-bit integer congruent to [z]. *)
Definition to_int32 (z : Z) : Z := (z + 2 ^ 31) mod 2 ^ 32 - 2 ^ 31.

(** [Math.imul] *)
Definition imul (a b : Z) : Z := to_int32 (to_int32 a * to_int32 b).

(** [a ^ b] on numbers *)
Definition bitxor (a b : Z) : Z := Z.lxor (to_int32 a) (to_int32 b).

(** [h >>> 0] *)
Definition to_uint32 (h : Z) : Z := h mod 2 ^ 32.

(** [hashFNV1a], on the UTF-16 code units of the string
    ([str.charCodeAt(i)]). *)
Definition hashFNV1a (str : list Z) : Z :=
  to_uint32
    (fold_left (fun h c => imul (bitxor h c) 16777619) str 2166136261).

Inductive Thumb := thumbMath | thumbPhysics | thumbBiology.

Definition THUMBS : list Thumb := [thumbMath; thumbPhysics; thumbBiology].

(** [pickThumbById], on the code units of [String(id)]; [None] is
    [undefined]. *)
Definition pickThumbById (id : list Z) : option Thumb :=
  let h := hashFNV1a id in
  let idx := h mod Z.of_nat (List.length THUMBS) in
  nth_error THUMBS (Z.to_nat idx).

(** FNV-1a as it is defined on unsigned 32-bit words: offset basis
    2166136261, prime 16777619. *)
Definition fnv1a_32 (str : list Z) : Z :=
  fold_left (fun h c => (Z.lxor h c * 16777619) mod 2 ^ 32) str 2166136261.

(** The code units of an ASCII string. *)
Fixpoint code_units (s : string) : list Z :=
  match s with
  | EmptyString => []
  | String a rest => Z.of_N (Ascii.N_of_ascii a) :: code_units rest
  end.

End Dashboard.

(** ** useRoomRealtime: the listener of row changes *)

Module RoomRealtime.

Record RoomRow := {
  id : string;
  video_url : option string
}.

(** A property of the payload: absent, present and null or undefined,
    present with a row. *)
Inductive Field :=
| Absent
| Nullish
| Row (r : RoomRow).

Record Payload := {
  isDelete : bool;           (* payload.eventType === "DELETE" *)
  new_ : Field;              (* payload.new *)
  record_ : Field            (* payload.record *)
}.

(** The values the expression for [newRow] goes through. *)
Inductive Value :=
| VFalse
| VNullish
| VRow (r : RoomRow).

(** [payload && (key in payload) && payload[key]], on a payload that is an
    object. *)
Definition guarded (f : Field) : Value :=
  match f with
  | Absent => VFalse
  | Nullish => VNullish
  | Row r => VRow r
  end.

(** [a ?? b] *)
Definition coalesce (a b : Value) : Value :=
  match a with
  | VNullish => b
  | _ => a
  end.

(** The listener, on the current value of [room]. *)
Definition on_change (p : Payload) (room : option RoomRow) : option RoomRow :=
  if isDelete p then None
  else
    match coalesce (coalesce (guarded (new_ p)) (guarded (record_ p))) VNullish
    with
    | VRow r => Some r
    | _ => room
    end.

End RoomRealtime.

(** * Properties *)

(** ** Playback reconciliation *)

Section Playback.

Import RoomVideoPlayer.

Lemma surface_ready_members (st : State) :
  surface_ready st = true ->
  member has_getCurrentTime st = true /\ member has_seekTo st = true
  /\ member has_setPlaying st = true.
Proof.
  unfold surface_ready. intros H.
  apply andb_prop in H. destruct H as [H Hp].
  apply andb_prop in H. destruct H as [Hg Hs]. auto.
Qed.

Lemma broadcasts_app (a b : list Effect) :
  broadcasts (a ++ b) = broadcasts a ++ broadcasts b.
Proof. unfold broadcasts. apply flat_map_app. Qed.

Lemma broadcasts_onTimeUpdate (pr : Props) (t : float) :
  broadcasts (call_onTimeUpdate pr t) = [].
Proof. unfold call_onTimeUpdate. destruct (has_onTimeUpdate pr); reflexivity. Qed.

(** The threshold is below |d| exactly when it is below d or below -d. *)
Lemma threshold_below_abs (d : float) :
  (SEEK_THRESHOLD <? PrimFloat.abs d)%float
  = (SEEK_THRESHOLD <? d)%float || (SEEK_THRESHOLD <? - d)%float.
Proof.
  rewrite !ltb_spec, abs_spec, opp_spec.
  remember (Prim2SF SEEK_THRESHOLD) as c eqn:Hc. vm_compute in Hc. subst c.
  destruct (Prim2SF d) as [s|s| |s m e]; try destruct s; cbn;
    rewrite ?orb_false_r; reflexivity.
Qed.

(** C1. With a ready control surface, a remote update makes the handler
    seek exactly when the drift |localTime - playback_time| is above
    SEEK_THRESHOLD, that is when the difference d = localTime -
    playback_time has 0.6 < d (the player is ahead of the message) or
    0.6 < -d (the player is behind it); it then seeks once, to the
    playback_time of the message; the is_playing flag of the message is
    passed to setPlaying whatever the drift; the refs are left as they
    were. *)
Theorem remote_update_seeks_iff_drift
    (playerTime : float) (update : PlaybackUpdate) (st : State) :
  surface_ready st = true ->
  let r := on_playback_update playerTime update st in
  let d := (playerTime - playback_time update)%float in
  let exceeds := (SEEK_THRESHOLD <? PrimFloat.abs d)%float in
  seeks (snd r) = (if exceeds then [playback_time update] else [])
  /\ (seeks (snd r) <> [] <-> exceeds = true)
  /\ (seeks (snd r) <> []
      <-> (SEEK_THRESHOLD <? d)%float = true
          \/ (SEEK_THRESHOLD <? - d)%float = true)
  /\ playing_calls (snd r) = [is_playing update]
  /\ fst r = st.
Proof.
  intros Hready. apply surface_ready_members in Hready.
  destruct Hready as (Hg & Hs & Hp).
  unfold on_playback_update, drift. rewrite Hg, Hs, Hp. cbn zeta.
  rewrite andb_true_r.
  pose proof (threshold_below_abs (playerTime - playback_time update)) as Habs.
  destruct (SEEK_THRESHOLD <? PrimFloat.abs (playerTime - playback_time update))%float;
    symmetry in Habs; cbn [seeks playing_calls flat_map app fst snd].
  - apply orb_true_iff in Habs.
    split; [reflexivity|]. split; [split; [reflexivity | discriminate]|].
    split; [split; [intros _; exact Habs | discriminate]|].
    split; reflexivity.
  - apply orb_false_iff in Habs. destruct Habs as [Ha Hb].
    split; [reflexivity|]. split; [split; [congruence | discriminate]|].
    split; [split; [congruence | intros [H|H]; congruence]|].
    split; reflexivity.
Qed.

Lemma remote_update_seeks_iff_drift_witness :
  surface_ready ready_state = true
  /\ seeks (snd (on_playback_update 10 (sample_update false 12) ready_state))
     = [12%float]
  /\ seeks (snd (on_playback_update 100 (sample_update false 12) ready_state))
     = [12%float]
  /\ seeks (snd (on_playback_update 12.5 (sample_update true 12) ready_state))
     = []
  /\ playing_calls
       (snd (on_playback_update 10 (sample_update false 12) ready_state))
     = [false].
Proof.
  split; [reflexivity|].
  destruct (remote_update_seeks_iff_drift 10 (sample_update false 12)
              ready_state eq_refl) as (Hbehind & _ & _ & Hp & _).
  destruct (remote_update_seeks_iff_drift 100 (sample_update false 12)
              ready_state eq_refl) as (Hahead & _).
  destruct (remote_update_seeks_iff_drift 12.5 (sample_update true 12)
              ready_state eq_refl) as (Hnear & _).
  split; [exact Hbehind|]. split; [exact Hahead|].
  split; [exact Hnear | exact Hp].
Defined.

(** The player may be behind the message or ahead of it: both are
    corrected, and a drift within the threshold on either side is not. *)
Example remote_update_both_sides :
  seeks (snd (on_playback_update 10 (sample_update true 12) ready_state))
  = [12%float]
  /\ seeks (snd (on_playback_update 100 (sample_update true 12) ready_state))
     = [12%float]
  /\ seeks (snd (on_playback_update 11.5 (sample_update true 12) ready_state))
     = []
  /\ seeks (snd (on_playback_update 12.5 (sample_update true 12) ready_state))
     = [].
Proof. repeat split. Qed.

(** Inside the threshold the same handler seeks nowhere, and still passes
    the flag on. *)
Example remote_update_small_drift :
  snd (on_playback_update 10 (sample_update true 10.5) ready_state)
  = [SetPlaying true].
Proof. reflexivity. Qed.

(** A player that reports NaN has no drift above the threshold: the
    comparison is false and no seek is made. *)
Example remote_update_nan_time :
  snd (on_playback_update nan (sample_update false 10) ready_state)
  = [SetPlaying false].
Proof. reflexivity. Qed.

Lemma throttle_refinement
    (pr : Props) (evs : list LocalEvent) (st : State) :
  broadcasts (snd (local_run pr evs st))
  = spec_broadcasts pr (lastSentRef st) evs.
Proof.
  revert st. induction evs as [|ev rest IH]; intros st; [reflexivity|].
  cbn [local_run].
  destruct (local_step pr ev st) as [st1 e1] eqn:Hstep.
  specialize (IH st1).
  destruct (local_run pr rest st1) as [st2 e2].
  cbn [snd] in *. rewrite broadcasts_app, IH.
  destruct ev as [now time|t|t|t]; cbn [local_step] in Hstep.
  - unfold handleLocalTimeUpdate in Hstep. cbn [spec_broadcasts].
    destruct (Z.ltb_spec (now - lastSentRef st) UPDATE_THROTTLE_MS) as [Hlt|Hge];
      inversion Hstep; subst; clear Hstep.
    + rewrite broadcasts_onTimeUpdate.
      destruct (Z.leb_spec UPDATE_THROTTLE_MS (now - lastSentRef st1)); [lia|].
      reflexivity.
    + rewrite broadcasts_app, broadcasts_onTimeUpdate.
      destruct (Z.leb_spec UPDATE_THROTTLE_MS (now - lastSentRef st)); [|lia].
      reflexivity.
  - inversion Hstep; subst. reflexivity.
  - inversion Hstep; subst. reflexivity.
  - unfold handleLocalSeek in Hstep. inversion Hstep; subst.
    rewrite broadcasts_app, broadcasts_onTimeUpdate. reflexivity.
Qed.

(** C5. Over any sequence of local events, the playback-update messages
    sent are those of the throttle rule: a time report is sent when at
    least UPDATE_THROTTLE_MS (1500 ms) separate it from the last time
    report that was sent, and dropped otherwise; every play, pause and seek
    is sent, whatever the throttle window.  Handler by handler: the time
    report is sent, and its time kept in lastSentRef, unless
    now - lastSentRef < 1500; play, pause and seek send one message each and
    neither read nor write lastSentRef. *)
Theorem local_broadcasts_follow_throttle
    (pr : Props) (evs : list LocalEvent) (st : State)
    (now : Z) (time t : float) (playing : bool) :
  broadcasts (snd (local_run pr evs st))
  = spec_broadcasts pr (lastSentRef st) evs
  /\ broadcasts (snd (handleLocalTimeUpdate pr now time st))
     = (if (now - lastSentRef st <? UPDATE_THROTTLE_MS)%Z then []
        else [message pr true time])
  /\ lastSentRef (fst (handleLocalTimeUpdate pr now time st))
     = (if (now - lastSentRef st <? UPDATE_THROTTLE_MS)%Z then lastSentRef st
        else now)
  /\ handleLocalPlayPause pr playing t st
     = (st, [Emit "playback-update" (message pr playing t)])
  /\ broadcasts (snd (handleLocalSeek pr t st)) = [message pr true t]
  /\ fst (handleLocalSeek pr t st) = st.
Proof.
  split; [apply throttle_refinement|].
  unfold handleLocalTimeUpdate, handleLocalSeek.
  destruct (now - lastSentRef st <? UPDATE_THROTTLE_MS)%Z; cbn [fst snd];
    rewrite ?broadcasts_app, !broadcasts_onTimeUpdate; repeat split.
Qed.

(** A time report 900 ms after the last one is dropped, while the pause
    and the seek that follow it go out at once. *)
Example throttle_run :
  let pr := sample_props in
  broadcasts
    (snd (local_run pr
            [TimeUpdate 5000 1; TimeUpdate 5900 2; LocalPause 2;
             LocalSeek 30; TimeUpdate 6500 31]
            initial))
  = [message pr true 1; message pr false 2; message pr true 30;
     message pr true 31].
Proof. reflexivity. Qed.

Lemma request_step_unattached (pr : Props) (r : Request) (st : State) :
  playerControlRef st = None ->
  playerControlRef (fst (request_step pr r st)) = None
  /\ snd (request_step pr r st) = []
  /\ pendingSeekRef (fst (request_step pr r st)) = Some (target r).
Proof.
  intros Hnone. destruct r as [playerTime update|t]; cbn [request_step target].
  - unfold on_playback_update, member. rewrite Hnone. cbn. auto.
  - unfold externalSeek, member. rewrite Hnone. cbn. auto.
Qed.

Lemma request_run_unattached (pr : Props) (rs : list Request) (st : State) :
  playerControlRef st = None ->
  playerControlRef (fst (request_run pr rs st)) = None
  /\ snd (request_run pr rs st) = []
  /\ pendingSeekRef (fst (request_run pr rs st))
     = fold_left (fun _ r => Some (target r)) rs (pendingSeekRef st).
Proof.
  revert st. induction rs as [|r rest IH]; intros st Hnone; [cbn; auto|].
  cbn [request_run fold_left].
  destruct (request_step_unattached pr r st Hnone) as (Hc & He & Hp).
  destruct (request_step pr r st) as [st1 e1]. cbn [fst snd] in *.
  destruct (IH st1 Hc) as (Hc' & He' & Hp').
  destruct (request_run pr rest st1) as [st2 e2]. cbn [fst snd] in *.
  subst e1 e2. rewrite Hp', Hp. auto.
Qed.

Lemma setPlayerControls_consumes (c : Controls) (v : float) (st : State) :
  pendingSeekRef st = Some v ->
  has_seekTo c = true ->
  setPlayerControls (Some c) st
  = (set_pendingSeek None (set_playerControl (Some c) st), [SeekTo v]).
Proof.
  intros Hp Hs. unfold setPlayerControls.
  cbn [set_playerControl pendingSeekRef]. rewrite Hp, Hs. reflexivity.
Qed.

Lemma setPlayerControls_idle (later : option Controls) (st : State) :
  pendingSeekRef st = None ->
  setPlayerControls later st = (set_playerControl later st, []).
Proof.
  intros Hp. unfold setPlayerControls.
  cbn [set_playerControl pendingSeekRef]. rewrite Hp. reflexivity.
Qed.

(** C6. The pending-seek buffer is one optional value.  While no control
    object is attached, every seek request (remote update or seekToTime
    prop) replaces the buffered target and issues no seek; when a control
    object with seekTo is registered, one seek to the newest target is
    issued and the buffer is emptied, so that a later registration issues
    nothing. *)
Theorem pending_seek_overwritten_then_consumed_once
    (pr : Props) (rs : list Request) (r : Request) (c : Controls)
    (later : option Controls) (st : State) :
  playerControlRef st = None ->
  has_seekTo c = true ->
  let buffered := request_run pr (rs ++ [r]) st in
  let attached := setPlayerControls (Some c) (fst buffered) in
  let again := setPlayerControls later (fst attached) in
  snd buffered = []
  /\ pendingSeekRef (fst buffered) = Some (target r)
  /\ snd attached = [SeekTo (target r)]
  /\ pendingSeekRef (fst attached) = None
  /\ snd again = []
  /\ pendingSeekRef (fst again) = None.
Proof.
  intros Hnone Hseek.
  destruct (request_run_unattached pr (rs ++ [r]) st Hnone) as (_ & He & Hp).
  rewrite fold_left_app in Hp. cbn [fold_left] in Hp.
  destruct (request_run pr (rs ++ [r]) st) as [st1 e1]. cbn [fst snd] in *.
  cbn zeta.
  rewrite (setPlayerControls_consumes c (target r) st1 Hp Hseek). cbn [fst snd].
  rewrite setPlayerControls_idle by reflexivity.
  cbn. repeat split; assumption.
Qed.

Lemma pending_seek_overwritten_then_consumed_once_witness :
  let buffered :=
    request_run sample_props
      [External 3; Remote 0 (sample_update true 40);
       Remote 0 (sample_update true 42)] initial in
  let attached := setPlayerControls (Some full_controls) (fst buffered) in
  pendingSeekRef (fst buffered) = Some 42%float
  /\ snd attached = [SeekTo 42]
  /\ pendingSeekRef (fst attached) = None
  /\ snd (setPlayerControls (Some full_controls) (fst attached)) = [].
Proof.
  destruct (pending_seek_overwritten_then_consumed_once sample_props
              [External 3; Remote 0 (sample_update true 40)]
              (Remote 0 (sample_update true 42)) full_controls
              (Some full_controls) initial eq_refl eq_refl)
    as (_ & Hp & Hs & Hn & Ha & _).
  repeat split; assumption.
Defined.

(** C9. The message sent for a local seek has is_playing = true whatever
    the state of the sender, paused or playing; a receiver with a ready
    control surface passes that flag to setPlaying, which leaves its player
    in the playing state even when it was paused. *)
Theorem local_seek_announces_playing
    (pr : Props) (t : float) (sender receiver : State) (playerTime : float)
    (vp : VideoPlayer.State) :
  surface_ready receiver = true ->
  let sent := broadcasts (snd (handleLocalSeek pr t sender)) in
  sent = [message pr true t]
  /\ Forall (fun m => is_playing m = true) sent
  /\ forall m, In m sent ->
       playing_calls (snd (on_playback_update playerTime m receiver)) = [true]
       /\ VideoPlayer.isPlaying
            (VideoPlayer.controls
               (snd (on_playback_update playerTime m receiver)) vp) = true.
Proof.
  intros Hready. cbn zeta.
  assert (Hsent : broadcasts (snd (handleLocalSeek pr t sender))
                  = [message pr true t]).
  { unfold handleLocalSeek. cbn [snd].
    rewrite broadcasts_app, broadcasts_onTimeUpdate. reflexivity. }
  rewrite Hsent. split; [reflexivity|]. split.
  - constructor; [reflexivity | constructor].
  - intros m [Hm|[]]. subst m.
    apply surface_ready_members in Hready. destruct Hready as (Hg & Hs & Hp).
    unfold on_playback_update. rewrite Hg, Hs, Hp. cbn zeta.
    destruct ((SEEK_THRESHOLD <? _)%float && true); cbn; auto.
Qed.

Lemma local_seek_announces_playing_witness :
  surface_ready ready_state = true
  /\ VideoPlayer.isPlaying
       (VideoPlayer.controls
          (snd (on_playback_update 30 (message sample_props true 30)
                  ready_state))
          VideoPlayer.paused_player) = true.
Proof.
  split; [reflexivity|].
  destruct (local_seek_announces_playing sample_props 30 initial ready_state
              30 VideoPlayer.paused_player eq_refl) as (_ & _ & H).
  exact (proj2 (H _ (or_introl eq_refl))).
Defined.

End Playback.

(** ** Painting on the whiteboard *)

Section Painting.

Import Whiteboard.

Lemma with_calls_same (c : Ctx) : with_calls (calls c) c = c.
Proof. destruct c; reflexivity. Qed.

Lemma restore_with_calls (prev c : Ctx) (l : list Call) :
  restore prev (with_calls l c) = with_calls l prev.
Proof. reflexivity. Qed.

Lemma apply_tool_with_calls (t : Tool) (col : string) (pw ew : float)
    (l : list Call) (c : Ctx) :
  apply_tool t col pw ew (with_calls l c)
  = with_calls l (apply_tool t col pw ew c).
Proof. destruct t; reflexivity. Qed.

(** The tool set-up forgets the composite mode and the width it finds, and
    keeps of the stroke style only what the eraser branch leaves. *)
Lemma apply_tool_base (t : Tool) (col : string) (pw ew : float) (c : Ctx) :
  apply_tool t col pw ew c
  = with_calls (calls c)
      (apply_tool t col pw ew
         {| globalCompositeOperation := SourceOver;
            strokeStyle := strokeStyle c; lineWidth := 5%float;
            calls := [] |}).
Proof. destruct t; reflexivity. Qed.

(** The loop of [drawStroke] only appends calls, and what it appends does
    not depend on the calls made before. *)
Lemma trace_points_frame (ps : list StrokePoint) :
  forall (b : bool) (h : list Call) (c : Ctx),
    trace_points b ps (with_calls h c)
    = with_calls (h ++ calls (trace_points b ps (with_calls [] c))) c.
Proof.
  induction ps as [|p rest IH]; intros b h c; cbn [trace_points].
  - cbn [with_calls calls]. rewrite app_nil_r. reflexivity.
  - destruct (match type p with Start => true | Move => false end || b).
    + change (moveTo (x p) (y p) (beginPath (with_calls h c)))
        with (with_calls ((h ++ [BeginPath]) ++ [MoveTo (x p) (y p)]) c).
      change (moveTo (x p) (y p) (beginPath (with_calls [] c)))
        with (with_calls [BeginPath; MoveTo (x p) (y p)] c).
      rewrite (IH false ((h ++ [BeginPath]) ++ [MoveTo (x p) (y p)]) c).
      rewrite (IH false [BeginPath; MoveTo (x p) (y p)] c).
      cbn [with_calls calls]. rewrite <- !app_assoc. reflexivity.
    + change (stroke (lineTo (x p) (y p) (with_calls h c)))
        with (with_calls
                ((h ++ [LineTo (x p) (y p)])
                   ++ [Stroke (globalCompositeOperation c) (strokeStyle c)
                         (lineWidth c)]) c).
      change (stroke (lineTo (x p) (y p) (with_calls [] c)))
        with (with_calls
                [LineTo (x p) (y p);
                 Stroke (globalCompositeOperation c) (strokeStyle c)
                   (lineWidth c)] c).
      rewrite (IH b _ c).
      rewrite (IH b [LineTo (x p) (y p); _] c).
      cbn [with_calls calls]. rewrite <- !app_assoc. reflexivity.
Qed.

(** [drawStroke] on a context: the three properties are as before, and the
    calls of the stroke are appended. *)
Lemma drawStroke_appends (pen eraser : float) (pts : list StrokePoint)
    (col : string) (t : Tool) (sz : option float) (c : Ctx) :
  drawStroke pen eraser pts col t sz (Some c)
  = Some (with_calls
            (calls c ++ paint_calls pen eraser (strokeStyle c) pts col t sz)
            c).
Proof.
  unfold paint_calls, drawStroke.
  destruct pts as [|p rest].
  - cbn [calls]. rewrite app_nil_r, with_calls_same. reflexivity.
  - rewrite (apply_tool_base t col _ _ c).
    set (base := {| globalCompositeOperation := SourceOver;
                    strokeStyle := strokeStyle c; lineWidth := 5%float;
                    calls := [] |}).
    set (c1 := apply_tool t col (nullish sz pen) (nullish sz eraser) base).
    rewrite (trace_points_frame (p :: rest) true (calls c) c1).
    rewrite restore_with_calls.
    assert (Hc1 : with_calls [] c1 = c1) by (subst c1; destruct t; reflexivity).
    rewrite Hc1. reflexivity.
Qed.

(** C10. [drawStroke] returns on every point sequence.  On the empty
    sequence it leaves the context as it was; on a sequence that starts
    with a point [p], of kind start or move alike, the first calls it makes
    are beginPath and moveTo(p.x, p.y), so that every lineTo of the batch
    follows a moveTo of the same batch; without a context it does
    nothing. *)
Theorem drawStroke_begins_path_at_first_point
    (pen eraser : float) (col : string) (t : Tool) (sz : option float)
    (c : Ctx) (pts : list StrokePoint) (p : StrokePoint)
    (rest : list StrokePoint) :
  drawStroke pen eraser [] col t sz (Some c) = Some c
  /\ drawStroke pen eraser pts col t sz None = None
  /\ drawStroke pen eraser (p :: rest) col t sz (Some c)
     = Some (with_calls
               (calls c
                  ++ BeginPath :: MoveTo (x p) (y p)
                       :: calls (trace_points false rest
                                   (with_calls []
                                      (apply_tool t col (nullish sz pen)
                                         (nullish sz eraser) c))))
               c).
Proof.
  split; [reflexivity|]. split; [reflexivity|].
  set (c1 := apply_tool t col (nullish sz pen) (nullish sz eraser) c).
  unfold drawStroke. fold c1. cbn [trace_points].
  rewrite orb_true_r.
  change (moveTo (x p) (y p) (beginPath c1))
    with (with_calls ((calls c1 ++ [BeginPath]) ++ [MoveTo (x p) (y p)]) c1).
  rewrite trace_points_frame, restore_with_calls.
  assert (Hcalls : calls c1 = calls c) by (subst c1; destruct t; reflexivity).
  rewrite Hcalls, <- !app_assoc. reflexivity.
Qed.

(** A batch cut by the flush timer starts with a move point: the path is
    begun at that point all the same. *)
Example drawStroke_on_split_batch :
  option_map calls
    (drawStroke 5 18 [pt Move 3 4; pt Move 5 6] "#ffffff" Pen None
       (Some fresh_context))
  = Some [BeginPath; MoveTo 3 4; LineTo 5 6; Stroke SourceOver "#ffffff" 5].
Proof. reflexivity. Qed.

Lemma repaint_fold (pen eraser : float) (log : list StoredStroke) :
  forall (h : list Call) (c : Ctx),
    fold_left
      (fun ctx s =>
         drawStroke pen eraser (points s) (color s) (tool_or_pen (tool s))
           (size s) ctx)
      log (Some (with_calls h c))
    = Some (with_calls
              (h ++ flat_map (stroke_calls pen eraser (strokeStyle c)) log) c).
Proof.
  induction log as [|s rest IH]; intros h c; cbn [fold_left flat_map].
  - rewrite app_nil_r. reflexivity.
  - rewrite drawStroke_appends. cbn [with_calls calls strokeStyle].
    change (with_calls ?l (with_calls h c)) with (with_calls l c).
    rewrite IH, <- app_assoc. reflexivity.
Qed.

Lemma repaintAll_appends (pen eraser : float) (w : Whiteboard) (c : Ctx) :
  contextRef w = Some c ->
  contextRef (repaintAll pen eraser w)
  = Some (with_calls
            (calls c
               ++ flat_map (stroke_calls pen eraser (strokeStyle c))
                    (strokesStoreRef w)) c)
  /\ strokesStoreRef (repaintAll pen eraser w) = strokesStoreRef w.
Proof.
  intros Hc. unfold repaintAll. rewrite Hc.
  cbn [set_contextRef contextRef strokesStoreRef].
  rewrite <- (with_calls_same c) at 1. rewrite repaint_fold. auto.
Qed.

(** C7. [repaintAll] replays the stroke log entry by entry, in the order of
    the log: on a context that has received no call, the calls it makes are
    the calls of the first entry, then those of the second, and so on.  Two
    boards with the same log and freshly cleared contexts (same stroke
    style) receive the same calls in the same order, whatever else differs
    between them; the context properties are left as they were, so a second
    replay on the same context makes the same calls again. *)
Theorem repaintAll_replays_log_in_order
    (pen eraser : float) (w1 w2 : Whiteboard) (c1 c2 : Ctx) :
  contextRef w1 = Some c1 ->
  contextRef w2 = Some c2 ->
  calls c1 = [] ->
  calls c2 = [] ->
  strokeStyle c1 = strokeStyle c2 ->
  strokesStoreRef w1 = strokesStoreRef w2 ->
  painted (repaintAll pen eraser w1)
  = flat_map (stroke_calls pen eraser (strokeStyle c1)) (strokesStoreRef w1)
  /\ painted (repaintAll pen eraser w2) = painted (repaintAll pen eraser w1)
  /\ painted (repaintAll pen eraser (repaintAll pen eraser w1))
     = painted (repaintAll pen eraser w1) ++ painted (repaintAll pen eraser w1)
  /\ option_map settings (contextRef (repaintAll pen eraser w1))
     = Some (settings c1).
Proof.
  intros H1 H2 E1 E2 Hstyle Hlog.
  destruct (repaintAll_appends pen eraser w1 c1 H1) as [R1 L1].
  destruct (repaintAll_appends pen eraser w2 c2 H2) as [R2 _].
  destruct (repaintAll_appends pen eraser (repaintAll pen eraser w1) _ R1)
    as [R11 _].
  unfold painted. rewrite R11, R1, R2, L1.
  cbn [with_calls calls strokeStyle option_map].
  rewrite E1, E2, <- Hstyle, <- Hlog. cbn [app].
  repeat split; reflexivity.
Qed.

Lemma repaintAll_replays_log_in_order_witness :
  let w1 := set_contextRef (Some fresh_context) sample_board in
  let w2 := set_contextRef (Some fresh_context)
              (set_currentTool Eraser sample_board) in
  painted (repaintAll 5 18 w1)
  = [BeginPath; MoveTo 1 1; LineTo 2 3; Stroke SourceOver "#f43f5e" 4]
  /\ painted (repaintAll 5 18 w2) = painted (repaintAll 5 18 w1).
Proof.
  cbn zeta.
  destruct (repaintAll_replays_log_in_order 5 18
              (set_contextRef (Some fresh_context) sample_board)
              (set_contextRef (Some fresh_context)
                 (set_currentTool Eraser sample_board))
              fresh_context fresh_context
              eq_refl eq_refl eq_refl eq_refl eq_refl eq_refl)
    as (Hp & Hsame & _).
  split; [exact Hp | exact Hsame].
Defined.

End Painting.

(** ** The board as a state machine *)

Section Board.

Import Whiteboard.

Lemma run_app (a b : list Event) (w : Whiteboard) :
  run (a ++ b) w
  = (fst (run b (fst (run a w))), snd (run a w) ++ snd (run b (fst (run a w)))).
Proof.
  revert w. induction a as [|ev rest IH]; intros w; cbn [app run fst snd].
  - destruct (run b w); reflexivity.
  - destruct (step ev w) as [w1 e1]. rewrite IH.
    destruct (run rest w1) as [w2 e2]. cbn [fst snd].
    rewrite app_assoc. reflexivity.
Qed.

Lemma run_cons_fst (ev : Event) (rest : list Event) (w : Whiteboard) :
  fst (run (ev :: rest) w) = fst (run rest (fst (step ev w))).
Proof.
  cbn [run]. destruct (step ev w) as [w1 e1]. cbn [fst].
  destruct (run rest w1); reflexivity.
Qed.

Lemma run_single_fst (ev : Event) (w : Whiteboard) :
  fst (run [ev] w) = fst (step ev w).
Proof. rewrite run_cons_fst. reflexivity. Qed.

Lemma run_cons_snd (ev : Event) (rest : list Event) (w : Whiteboard) :
  snd (run (ev :: rest) w)
  = snd (step ev w) ++ snd (run rest (fst (step ev w))).
Proof.
  cbn [run]. destruct (step ev w) as [w1 e1]. cbn [fst snd].
  destruct (run rest w1); reflexivity.
Qed.

(** A release whose POST settles before anything else happens is
    [stopDrawing] run to its end. *)
Lemma run_release_settled (w : Whiteboard) :
  run [MouseUp; PostSettled] w
  = (fst (stopDrawing w), snd (stopDrawing w)).
Proof.
  unfold stopDrawing. cbn [run step].
  destruct (stopDrawing_begin w) as [w1 e]. cbn [fst snd].
  rewrite app_nil_r. reflexivity.
Qed.

Lemma startDrawing_settings (px py : float) (w : Whiteboard) (c : Ctx) :
  contextRef w = Some c ->
  tools (fst (startDrawing px py w)) = tools w
  /\ option_map settings (contextRef (fst (startDrawing px py w)))
     = Some (stroke_settings w (strokeStyle c)).
Proof.
  intros Hc. unfold startDrawing. rewrite Hc.
  unfold stroke_settings, tools.
  destruct w as [r u ctx conn dr col tl ps es buf tm path log].
  cbn in *. destruct tm, tl; cbn; auto.
Qed.

Lemma draw_settings (px py : float) (w0 w : Whiteboard) (style : string) :
  tools w = tools w0 ->
  option_map settings (contextRef w) = Some (stroke_settings w0 style) ->
  tools (fst (draw px py w)) = tools w0
  /\ option_map settings (contextRef (fst (draw px py w)))
     = Some (stroke_settings w0 style).
Proof.
  unfold draw, stroke_settings, tools.
  destruct w as [r u ctx conn dr col tl ps es buf tm path log].
  destruct w0 as [r0 u0 ctx0 conn0 dr0 col0 tl0 ps0 es0 buf0 tm0 path0 log0].
  cbn. intros Ht Hs. inversion Ht; subst.
  destruct dr; cbn; [|auto].
  destruct ctx as [c|]; cbn in *; [|discriminate].
  destruct tl0; cbn in *; inversion Hs; subst; auto.
Qed.

Lemma moves_settings (w0 : Whiteboard) (style : string)
    (moves : list (float * float)) :
  forall w,
    tools w = tools w0 ->
    option_map settings (contextRef w) = Some (stroke_settings w0 style) ->
    option_map settings
      (contextRef
         (fst (run (map (fun m => MouseMove (fst m) (snd m)) moves) w)))
    = Some (stroke_settings w0 style).
Proof.
  induction moves as [|m rest IH]; intros w Ht Hs; cbn [map run]; [exact Hs|].
  cbn [step].
  destruct (draw_settings (fst m) (snd m) w0 w style Ht Hs) as [Ht1 Hs1].
  destruct (draw (fst m) (snd m) w) as [w1 e1]. cbn [fst] in *.
  specialize (IH w1 Ht1 Hs1).
  destruct (run _ w1) as [w2 e2]. exact IH.
Qed.

Lemma stopDrawing_settings (w : Whiteboard) (op : CompositeOp)
    (style : string) (width : float) :
  option_map settings (contextRef w) = Some (op, style, width) ->
  option_map settings (contextRef (fst (stopDrawing w)))
  = Some (SourceOver, style, width).
Proof.
  unfold stopDrawing, stopDrawing_begin, sendBatchedPoints, stopDrawing_finish.
  destruct w as [r u ctx conn dr col tl ps es buf tm path log].
  cbn. intros Hs.
  destruct ctx as [c|]; cbn in *; [|discriminate].
  inversion Hs; subst.
  destruct buf, path; reflexivity.
Qed.

(** C8, as the code has it.  A paint through [drawStroke] (a remote batch,
    a stored stroke) and a paint by the [draw] listener save the composite
    mode, the stroke style and the line width and write them back: after
    it the three are what they were.  A local stroke does not save them:
    when it ends the composite mode is source-over, and the stroke style
    and line width are those of the tool that drew it. *)
Theorem paint_settings_after_batch
    (w : Whiteboard) (c : Ctx) (p : BatchPayload) (d : DrawPayload)
    (row : StrokeRow) (px py : float) (moves : list (float * float)) :
  contextRef w = Some c ->
  option_map settings (contextRef (on_draw_batch p w)) = Some (settings c)
  /\ option_map settings (contextRef (on_draw d w)) = Some (settings c)
  /\ option_map settings (contextRef (load_row w row)) = Some (settings c)
  /\ option_map settings
       (contextRef (fst (run (local_stroke px py moves) w)))
     = Some (SourceOver,
             match currentTool w with
             | Eraser => strokeStyle c
             | Pen => currentColor w
             end,
             tool_size w).
Proof.
  intros Hc. repeat split.
  - unfold on_draw_batch. destruct (String.eqb _ _); [rewrite Hc; reflexivity|].
    rewrite Hc, drawStroke_appends. reflexivity.
  - unfold on_draw. destruct (String.eqb _ _); rewrite Hc; reflexivity.
  - unfold load_row. rewrite Hc, drawStroke_appends. reflexivity.
  - unfold local_stroke. rewrite run_cons_fst, run_app. cbn [fst step].
    rewrite run_release_settled. cbn [fst].
    destruct (startDrawing_settings px py w c Hc) as [Ht Hs].
    assert (Hm := moves_settings w (strokeStyle c) moves
                    (fst (startDrawing px py w)) Ht Hs).
    unfold stroke_settings in Hm. unfold tool_size.
    destruct (currentTool w);
      apply (stopDrawing_settings _ _ _ _ Hm).
Qed.

Lemma paint_settings_after_batch_witness :
  let w := set_contextRef (Some fresh_context)
             (set_currentTool Eraser (mount "12" "me")) in
  option_map settings
    (contextRef (on_draw_batch (sample_batch "other" Eraser) w))
  = Some (SourceOver, INITIAL_COLOR, 5%float)
  /\ option_map settings
       (contextRef (fst (run (local_stroke 10 10 [(20, 20)%float]) w)))
     = Some (SourceOver, INITIAL_COLOR, 18%float).
Proof.
  cbn zeta.
  destruct (paint_settings_after_batch
              (set_contextRef (Some fresh_context)
                 (set_currentTool Eraser (mount "12" "me")))
              fresh_context (sample_batch "other" Eraser) (sample_draw "other")
              {| room_id := NumberOf "12"; strokes := [];
                 r_color := "#ffffff";
                 r_tool := None; r_size := None |}
              10 10 [(20, 20)%float] eq_refl)
    as (Hb & _ & _ & Hl).
  split; [exact Hb | exact Hl].
Defined.

(** C8 as stated fails on a local stroke: the line width is 5 before a
    local eraser stroke and 18, the eraser size, after it. *)
Lemma local_eraser_stroke_keeps_its_width :
  let before := fst (run [Resize; PickTool Eraser] (mount "12" "me")) in
  let after := fst (run (local_stroke 10 10 [(20, 20)%float]) before) in
  option_map settings (contextRef before)
  = Some (SourceOver, INITIAL_COLOR, 5%float)
  /\ option_map settings (contextRef after)
     = Some (SourceOver, INITIAL_COLOR, 18%float)
  /\ option_map lineWidth (contextRef after)
     <> option_map lineWidth (contextRef before).
Proof.
  cbn zeta. split; [reflexivity|]. split; [reflexivity|].
  intros H. vm_compute in H. discriminate H.
Qed.

(** *** The stroke log *)

Lemma setCurrentColor_log (col : string) (w : Whiteboard) :
  strokesStoreRef (setCurrentColor col w) = strokesStoreRef w.
Proof. unfold setCurrentColor. destruct (String.eqb _ _); reflexivity. Qed.

Lemma load_rows_log (data : list StrokeRow) :
  forall w, exists added,
    strokesStoreRef (fold_left load_row data w) = strokesStoreRef w ++ added.
Proof.
  induction data as [|r rest IH]; intros w; cbn [fold_left].
  - exists []. rewrite app_nil_r. reflexivity.
  - destruct (IH (load_row w r)) as [added Hadded].
    eexists. rewrite Hadded. cbn [load_row push_stroke set_strokesStoreRef
      set_contextRef strokesStoreRef]. rewrite <- app_assoc. reflexivity.
Qed.

(** No handler takes an entry out of the stroke log: after any event the
    log is the log before it, followed by what the event added. *)
Lemma step_log_grows (ev : Event) (w : Whiteboard) :
  exists added,
    strokesStoreRef (fst (step ev w)) = strokesStoreRef w ++ added.
Proof.
  destruct ev; cbn [step fst].
  - exists []. rewrite app_nil_r. unfold setupCanvas.
    destruct (repaintAll_appends INITIAL_PEN_SIZE INITIAL_ERASER_SIZE
                (set_contextRef (Some fresh_context) w) fresh_context eq_refl)
      as [_ L].
    exact L.
  - exists []. rewrite app_nil_r. reflexivity.
  - unfold on_strokes_loaded. destruct (load_rows_log data w) as [added H].
    exists added. destruct (rev data); [|rewrite setCurrentColor_log]; exact H.
  - unfold on_draw_batch. destruct (String.eqb _ _).
    + exists []. rewrite app_nil_r. reflexivity.
    + eexists. reflexivity.
  - exists []. rewrite app_nil_r. unfold on_draw.
    destruct (String.eqb _ _); [reflexivity|].
    destruct (contextRef w); reflexivity.
  - exists []. rewrite app_nil_r. reflexivity.
  - exists []. rewrite app_nil_r. unfold startDrawing.
    destruct (contextRef w); [|reflexivity].
    cbn. destruct (batchTimerRef w); reflexivity.
  - exists []. rewrite app_nil_r. unfold draw.
    destruct (isDrawing w); [|reflexivity].
    destruct (contextRef w); reflexivity.
  - unfold stopDrawing_begin, sendBatchedPoints.
    destruct w as [r u ctx conn dr col tl ps es buf tm path log]. cbn.
    destruct buf, path; cbn;
      solve [ exists []; rewrite app_nil_r; reflexivity
            | eexists; reflexivity ].
  - exists []. rewrite app_nil_r. unfold sendBatchedPoints.
    destruct (batchTimerRef w); [|reflexivity].
    destruct (pointsBuffer w); reflexivity.
  - exists []. rewrite app_nil_r. unfold clearCanvas.
    destruct (contextRef w); reflexivity.
  - exists []. rewrite app_nil_r. reflexivity.
  - exists []. rewrite app_nil_r. unfold pickColor.
    rewrite setCurrentColor_log. reflexivity.
  - exists []. rewrite app_nil_r. unfold pickSize.
    destruct (currentTool w); reflexivity.
  - exists []. rewrite app_nil_r. reflexivity.
Qed.

(** [clearCanvas] clears the surface, asks the server to delete the
    strokes and broadcasts the clear, and leaves the local stroke log as it
    is: the next [setupCanvas] replays the whole log. *)
Lemma clearCanvas_keeps_log (w w' : Whiteboard) (out : list Outgoing) :
  clearCanvas w = Some (w', out) ->
  painted w' = painted w ++ [ClearRect]
  /\ out = [DeleteStrokes; SendClear (userId w)]
  /\ strokesStoreRef w' = strokesStoreRef w
  /\ painted (setupCanvas w')
     = flat_map
         (stroke_calls INITIAL_PEN_SIZE INITIAL_ERASER_SIZE INITIAL_COLOR)
         (strokesStoreRef w).
Proof.
  unfold clearCanvas. destruct (contextRef w) as [c|] eqn:Hc; [|discriminate].
  intros H. inversion H; subst; clear H.
  unfold painted at 1 2. rewrite Hc. cbn [set_contextRef contextRef].
  repeat split.
  unfold setupCanvas, painted.
  destruct (repaintAll_appends INITIAL_PEN_SIZE INITIAL_ERASER_SIZE
              (set_contextRef (Some fresh_context)
                 (set_contextRef (Some (clearRect c)) w))
              fresh_context eq_refl) as [R _].
  rewrite R. reflexivity.
Qed.

(** C3, at the failing input.  One stroke is drawn, the board is cleared,
    the window is resized.  The clear does clear the surface and is
    broadcast, but the stroke stays in the local log, and the resize paints
    it again. *)
Theorem clear_then_resize_repaints_cleared_stroke :
  let drawn :=
    fst (run (Resize :: local_stroke 10 10 [(20, 20)%float])
           (mount "12" "me")) in
  let cleared := fst (run [ClearClick] drawn) in
  let resized := fst (run [Resize] cleared) in
  painted cleared = painted drawn ++ [ClearRect]
  /\ filter is_broadcast (snd (run [ClearClick] drawn)) = [SendClear "me"]
  /\ strokesStoreRef cleared
     = [{| points := [pt Start 10 10; pt Move 20 20]; color := INITIAL_COLOR;
           tool := Some Pen; size := Some 5%float |}]
  /\ painted resized
     = [BeginPath; MoveTo 10 10; LineTo 20 20;
        Stroke SourceOver INITIAL_COLOR 5].
Proof.
  cbn zeta.
  split; [vm_compute; reflexivity|].
  split; [vm_compute; reflexivity|].
  split; vm_compute; reflexivity.
Qed.

(** *** Echoes *)

Lemma ready_update_sets_playing
    (playerTime : float) (m : RoomVideoPlayer.PlaybackUpdate)
    (st : RoomVideoPlayer.State) :
  RoomVideoPlayer.surface_ready st = true ->
  RoomVideoPlayer.playing_calls
    (snd (RoomVideoPlayer.on_playback_update playerTime m st))
  = [RoomVideoPlayer.is_playing m].
Proof.
  intros Hready. apply surface_ready_members in Hready.
  destruct Hready as (Hg & Hs & Hp).
  unfold RoomVideoPlayer.on_playback_update. rewrite Hg, Hs, Hp. cbn zeta.
  destruct ((RoomVideoPlayer.SEEK_THRESHOLD <? _)%float && true); reflexivity.
Qed.

(** C2 as stated fails.  A [clear] message carrying the local userId makes
    the listener clear the surface; and a playback update that this very
    client has just sent is applied like any other when it comes back: here
    it calls setPlaying(true). *)
Lemma own_messages_are_applied :
  painted (fst (step (RemoteClear (userId sample_board)) sample_board))
  <> painted sample_board
  /\ exists m,
       In m (RoomVideoPlayer.broadcasts
               (snd (RoomVideoPlayer.handleLocalSeek
                       RoomVideoPlayer.sample_props 30
                       RoomVideoPlayer.ready_state)))
       /\ snd (RoomVideoPlayer.on_playback_update 30 m
                 RoomVideoPlayer.ready_state)
          = [RoomVideoPlayer.SetPlaying true].
Proof.
  split.
  - intros H. vm_compute in H. discriminate H.
  - eexists. split; [left; reflexivity | reflexivity].
Qed.

(** C2, as the code has it.  The [draw_batch] and [draw] listeners drop a
    message whose userId is the local one: the whole state of the board,
    stroke log, context and surface included, is left as it was and nothing
    is sent, whatever the rest of the payload.  The playback listener has
    no such test (the payload names no sender): with a ready surface it
    passes the flag of every update to setPlaying. *)
Theorem own_draw_messages_are_dropped
    (w : Whiteboard) (p : BatchPayload) (d : DrawPayload)
    (playerTime : float) (m : RoomVideoPlayer.PlaybackUpdate)
    (st : RoomVideoPlayer.State) :
  b_userId p = userId w ->
  d_userId d = userId w ->
  RoomVideoPlayer.surface_ready st = true ->
  step (RemoteDrawBatch p) w = (w, [])
  /\ step (RemoteDraw d) w = (w, [])
  /\ RoomVideoPlayer.playing_calls
       (snd (RoomVideoPlayer.on_playback_update playerTime m st))
     = [RoomVideoPlayer.is_playing m].
Proof.
  intros Hp Hd Hready. cbn [step]. unfold on_draw_batch, on_draw.
  rewrite Hp, Hd, String.eqb_refl.
  repeat split. apply ready_update_sets_playing, Hready.
Qed.

Lemma own_draw_messages_are_dropped_witness :
  step (RemoteDrawBatch (sample_batch "me" Eraser)) sample_board
  = (sample_board, [])
  /\ step (RemoteDraw (sample_draw "me")) sample_board = (sample_board, []).
Proof.
  destruct (own_draw_messages_are_dropped sample_board
              (sample_batch "me" Eraser) (sample_draw "me") 0
              (RoomVideoPlayer.sample_update false 9)
              RoomVideoPlayer.ready_state eq_refl eq_refl eq_refl)
    as (Hb & Hd & _).
  split; [exact Hb | exact Hd].
Defined.

(** *** Sending before the history has arrived *)










End Board.

(** * Further properties *)

(** ** The player and its control surface *)

Section PlaybackMore.

Import RoomVideoPlayer.

Lemma local_step_untimed (pr : Props) (ev : LocalEvent) (st : State) :
  is_time_update ev = false -> fst (local_step pr ev st) = st.
Proof. destruct ev; cbn; [discriminate | reflexivity..]. Qed.

Lemma local_run_fst_cons (pr : Props) (ev : LocalEvent)
    (rest : list LocalEvent) (st : State) :
  fst (local_run pr (ev :: rest) st)
  = fst (local_run pr rest (fst (local_step pr ev st))).
Proof.
  cbn [local_run]. destruct (local_step pr ev st) as [st1 e1]. cbn [fst].
  destruct (local_run pr rest st1); reflexivity.
Qed.

Lemma local_run_snd_cons (pr : Props) (ev : LocalEvent)
    (rest : list LocalEvent) (st : State) :
  snd (local_run pr (ev :: rest) st)
  = snd (local_step pr ev st)
      ++ snd (local_run pr rest (fst (local_step pr ev st))).
Proof.
  cbn [local_run]. destruct (local_step pr ev st) as [st1 e1]. cbn [fst snd].
  destruct (local_run pr rest st1); reflexivity.
Qed.

(** X1. Over any sequence of local events [lastSentRef] never goes back,
    and it advances by at least UPDATE_THROTTLE_MS for every time report
    that is sent: the time reports sent number at most
    (final lastSentRef - initial lastSentRef) / 1500. *)
Theorem time_reports_rate_bound
    (pr : Props) (evs : list LocalEvent) (st : State) :
  (UPDATE_THROTTLE_MS
   * Z.of_nat
       (List.length (broadcasts (snd (local_run pr (time_reports evs) st))))
   <= lastSentRef (fst (local_run pr evs st)) - lastSentRef st)%Z.
Proof.
  revert st. induction evs as [|ev rest IH]; intros st.
  - cbn. lia.
  - rewrite local_run_fst_cons. unfold time_reports. cbn [filter].
    destruct (is_time_update ev) eqn:Hev.
    + fold (time_reports rest). rewrite local_run_snd_cons, broadcasts_app.
      rewrite length_app, Nat2Z.inj_add.
      specialize (IH (fst (local_step pr ev st))).
      destruct ev as [now time| | |]; try discriminate.
      cbn [local_step] in *. unfold handleLocalTimeUpdate in *.
      destruct (Z.ltb_spec (now - lastSentRef st) UPDATE_THROTTLE_MS);
        cbn [fst snd set_lastSent lastSentRef] in *;
        rewrite ?broadcasts_app, broadcasts_onTimeUpdate; cbn [List.length app];
        unfold UPDATE_THROTTLE_MS in *; cbn [broadcasts flat_map app List.length];
        lia.
    + fold (time_reports rest). rewrite (local_step_untimed pr ev st Hev).
      apply IH.
Qed.

Lemma spec_broadcasts_paused (pr : Props) (evs : list LocalEvent) :
  forall last,
    filter (fun m => negb (is_playing m)) (spec_broadcasts pr last evs)
    = map (message pr false) (pause_times evs).
Proof.
  induction evs as [|ev rest IH]; intros last; [reflexivity|].
  destruct ev as [now time|t|t|t]; cbn [spec_broadcasts pause_times flat_map].
  - destruct (UPDATE_THROTTLE_MS <=? now - last)%Z; cbn; apply IH.
  - cbn. apply IH.
  - cbn. f_equal. apply IH.
  - cbn. apply IH.
Qed.

(** X2. Over any sequence of local events, the messages sent with
    is_playing = false are, in order, one per local pause, each with the
    time of its pause: time reports and seeks always announce
    is_playing = true. *)
Theorem only_pauses_announce_paused
    (pr : Props) (evs : list LocalEvent) (st : State) :
  filter (fun m => negb (is_playing m))
    (broadcasts (snd (local_run pr evs st)))
  = map (message pr false) (pause_times evs).
Proof. rewrite throttle_refinement. apply spec_broadcasts_paused. Qed.



(** X5. The reply to a state request is built from what the control
    object reports.  For a player whose media is not the YouTube player the
    reply gives is_playing = not paused and the current time of the video
    element (0 for NaN); a player with no media element at all answers
    is_playing = true at time 0. *)
Theorem state_reply_without_youtube
    (pr : Props) (r : VideoPlayer.Reading) (vp : VideoPlayer.State)
    (c : Controls) (st : State) :
  playerControlRef st = Some c ->
  has_getCurrentTime c = true ->
  VideoPlayer.media vp <> VideoPlayer.YouTube ->
  on_request_state pr (VideoPlayer.getCurrentTime r vp)
    (Some (VideoPlayer.getPlayerState r vp)) st
  = Some [Emit "send-state"
            (message pr
               (match VideoPlayer.media vp with
                | VideoPlayer.Html5 => negb (VideoPlayer.html5_paused r)
                | _ => true
                end)
               (match VideoPlayer.media vp with
                | VideoPlayer.Html5 =>
                    VideoPlayer.or_zero (VideoPlayer.html5_time r)
                | _ => 0%float
                end))].
Proof.
  intros Hc Hg Hm. unfold on_request_state. rewrite Hc, Hg.
  unfold VideoPlayer.getCurrentTime, VideoPlayer.getPlayerState.
  destruct (VideoPlayer.media vp); [congruence| |reflexivity].
  destruct (VideoPlayer.html5_paused r); reflexivity.
Qed.

Lemma state_reply_without_youtube_witness :
  on_request_state sample_props
    (VideoPlayer.getCurrentTime VideoPlayer.sample_reading
       VideoPlayer.empty_player)
    (Some (VideoPlayer.getPlayerState VideoPlayer.sample_reading
             VideoPlayer.empty_player))
    ready_state
  = Some [Emit "send-state" (message sample_props true 0)].
Proof.
  apply (state_reply_without_youtube sample_props VideoPlayer.sample_reading
           VideoPlayer.empty_player full_controls ready_state eq_refl eq_refl).
  discriminate.
Defined.

Lemma state_changes_suppressed (es : list (VideoPlayer.StateChange * float))
    (vp : VideoPlayer.State) :
  VideoPlayer.suppressLocalRef vp = true ->
  VideoPlayer.state_changes es vp = (vp, []).
Proof.
  intros Hs. induction es as [|[e t] rest IH]; [reflexivity|].
  cbn [VideoPlayer.state_changes]. unfold VideoPlayer.onStateChange.
  rewrite Hs, IH. reflexivity.
Qed.

(** After the calls a ready receiver makes for a remote update, the player
    is in the announced state and local reporting is closed. *)
Lemma controls_after_update (playerTime : float) (m : PlaybackUpdate)
    (receiver : State) (vp : VideoPlayer.State) :
  surface_ready receiver = true ->
  VideoPlayer.suppressLocalRef
    (VideoPlayer.controls (snd (on_playback_update playerTime m receiver)) vp)
  = true
  /\ VideoPlayer.isPlaying
       (VideoPlayer.controls (snd (on_playback_update playerTime m receiver))
          vp)
     = is_playing m.
Proof.
  intros Hready. apply surface_ready_members in Hready.
  destruct Hready as (Hg & Hs & Hp).
  unfold on_playback_update. rewrite Hg, Hs, Hp. cbn zeta.
  destruct ((SEEK_THRESHOLD <? _)%float && true); cbn; auto.
Qed.

Lemma controls_arm_timers (playerTime : float) (m : PlaybackUpdate)
    (receiver : State) (vp : VideoPlayer.State) :
  surface_ready receiver = true ->
  exists k,
    VideoPlayer.timers
      (VideoPlayer.controls (snd (on_playback_update playerTime m receiver))
         vp)
    = S (k + VideoPlayer.timers vp).
Proof.
  intros Hready. apply surface_ready_members in Hready.
  destruct Hready as (Hg & Hs & Hp).
  unfold on_playback_update. rewrite Hg, Hs, Hp. cbn zeta.
  destruct ((SEEK_THRESHOLD <? _)%float && true); cbn;
    [exists 1 | exists 0]; reflexivity.
Qed.

(** X6. The calls a ready receiver makes for a remote update close local
    reporting and arm their timers: as long as no armed timer fires,
    whatever state changes the YouTube player announces, none is reported
    to the parent and the player stays in the state the update announced.
    The timers are never cancelled and share the one flag: after two
    updates, when the timer armed first fires, reporting is open again
    although timers of the later update are still armed, and the pause
    that update causes is reported as a local pause. *)
Theorem remote_update_not_reported_back
    (t1 t2 t : float) (m1 m2 : PlaybackUpdate) (receiver : State)
    (vp : VideoPlayer.State)
    (changes : list (VideoPlayer.StateChange * float)) :
  surface_ready receiver = true ->
  let first :=
    VideoPlayer.controls (snd (on_playback_update t1 m1 receiver)) vp in
  let second :=
    VideoPlayer.controls (snd (on_playback_update t2 m2 receiver)) first in
  let fired := VideoPlayer.suppress_expired second in
  snd (VideoPlayer.state_changes changes second) = []
  /\ VideoPlayer.isPlaying (fst (VideoPlayer.state_changes changes second))
     = is_playing m2
  /\ 0 < VideoPlayer.timers fired
  /\ VideoPlayer.timers fired < VideoPlayer.timers second
  /\ snd (VideoPlayer.onStateChange VideoPlayer.ToPaused t fired)
     = [VideoPlayer.OnLocalPause t].
Proof.
  intros Hready. cbn zeta.
  set (first := VideoPlayer.controls (snd (on_playback_update t1 m1 receiver))
                  vp).
  destruct (controls_after_update t2 m2 receiver first Hready) as [Hs Hp].
  destruct (controls_arm_timers t1 m1 receiver vp Hready) as [k1 Hk1].
  destruct (controls_arm_timers t2 m2 receiver first Hready) as [k2 Hk2].
  fold first in Hk1. rewrite Hk1 in Hk2.
  rewrite (state_changes_suppressed changes _ Hs). cbn [fst snd].
  split; [reflexivity|]. split; [exact Hp|].
  unfold VideoPlayer.suppress_expired, VideoPlayer.onStateChange.
  rewrite Hk2. cbn [VideoPlayer.timers VideoPlayer.suppressLocalRef snd].
  repeat split; lia.
Qed.

Lemma remote_update_not_reported_back_witness :
  let second :=
    VideoPlayer.controls
      (snd (on_playback_update 40 (sample_update false 41) ready_state))
      (VideoPlayer.controls
         (snd (on_playback_update 10 (sample_update true 40) ready_state))
         VideoPlayer.paused_player) in
  snd (VideoPlayer.state_changes
         [(VideoPlayer.ToOther, 41%float); (VideoPlayer.ToPaused, 41%float)]
         second) = []
  /\ snd (VideoPlayer.onStateChange VideoPlayer.ToPaused 41
            (VideoPlayer.suppress_expired second))
     = [VideoPlayer.OnLocalPause 41].
Proof.
  cbn zeta.
  destruct (remote_update_not_reported_back 10 40 41 (sample_update true 40)
              (sample_update false 41) ready_state VideoPlayer.paused_player
              [(VideoPlayer.ToOther, 41%float);
               (VideoPlayer.ToPaused, 41%float)] eq_refl)
    as (Hquiet & _ & _ & _ & Hecho).
  split; [exact Hquiet | exact Hecho].
Defined.

(** X7. What the player reports is the state it is left in: after
    [togglePlay] on a player that has a media element, and after a state
    change to playing, paused or ended that is not suppressed, the one
    message broadcast carries is_playing equal to the new [isPlaying] of
    the player. *)
Theorem announced_state_is_player_state
    (pr : Props) (t : float) (e : VideoPlayer.StateChange)
    (vp : VideoPlayer.State) (st : State) :
  VideoPlayer.media vp <> VideoPlayer.NoMedia ->
  VideoPlayer.suppressLocalRef vp = false ->
  e <> VideoPlayer.ToOther ->
  let toggled := VideoPlayer.togglePlay t vp in
  let changed := VideoPlayer.onStateChange e t vp in
  broadcasts
    (snd (local_run pr (map VideoPlayer.local_event (snd toggled)) st))
  = [message pr (VideoPlayer.isPlaying (fst toggled)) t]
  /\ VideoPlayer.isPlaying (fst toggled) = negb (VideoPlayer.isPlaying vp)
  /\ broadcasts
       (snd (local_run pr (map VideoPlayer.local_event (snd changed)) st))
     = [message pr (VideoPlayer.isPlaying (fst changed)) t].
Proof.
  intros Hm Hs He. cbn zeta.
  unfold VideoPlayer.togglePlay, VideoPlayer.onStateChange. rewrite Hs.
  destruct (VideoPlayer.media vp); [| |congruence];
    destruct (VideoPlayer.isPlaying vp); destruct e; try congruence;
    repeat split.
Qed.

Lemma announced_state_is_player_state_witness :
  broadcasts
    (snd (local_run sample_props
            (map VideoPlayer.local_event
               (snd (VideoPlayer.togglePlay 7 VideoPlayer.paused_player)))
            initial))
  = [message sample_props true 7].
Proof.
  refine (proj1 (announced_state_is_player_state sample_props 7
                   VideoPlayer.ToPaused VideoPlayer.paused_player initial
                   _ eq_refl _)); discriminate.
Defined.

End PlaybackMore.

(** ** The whiteboard: log, seeding and replay *)

Section BoardMore.

Import Whiteboard.

Lemma load_rows_userId (data : list StrokeRow) :
  forall w, userId (fold_left load_row data w) = userId w.
Proof.
  induction data as [|r rest IH]; intros w; cbn [fold_left]; [reflexivity|].
  rewrite IH. reflexivity.
Qed.

Lemma setCurrentColor_userId (col : string) (w : Whiteboard) :
  userId (setCurrentColor col w) = userId w.
Proof. unfold setCurrentColor. destruct (String.eqb _ _); reflexivity. Qed.

Lemma step_userId (ev : Event) (w : Whiteboard) :
  userId (fst (step ev w)) = userId w
  /\ Forall (eq (userId w)) (senders (snd (step ev w))).
Proof.
  destruct ev; cbn [step fst snd].
  - split; [|constructor]. unfold setupCanvas, repaintAll. reflexivity.
  - split; [reflexivity|]. repeat constructor.
  - split; [|constructor]. unfold on_strokes_loaded.
    destruct (rev data); rewrite ?setCurrentColor_userId;
      apply load_rows_userId.
  - split; [|constructor]. unfold on_draw_batch.
    destruct (String.eqb _ _); reflexivity.
  - split; [|constructor]. unfold on_draw.
    destruct (String.eqb _ _); [reflexivity|].
    destruct (contextRef w); reflexivity.
  - split; [reflexivity|constructor].
  - unfold startDrawing. destruct (contextRef w); cbn [fst snd].
    + split; [destruct (batchTimerRef _); reflexivity|].
      repeat constructor.
    + split; [reflexivity|constructor].
  - unfold draw. destruct (isDrawing w); cbn [negb fst snd];
      [|split; [reflexivity|constructor]].
    destruct (contextRef w); cbn [fst snd];
      split; try reflexivity; repeat constructor.
  - unfold stopDrawing_begin, sendBatchedPoints.
    destruct w as [r u ctx conn dr col tl ps es buf tm path log]. cbn.
    destruct buf, path; cbn; split; try reflexivity; repeat constructor.
  - unfold sendBatchedPoints. destruct (batchTimerRef w);
      [|split; [reflexivity|constructor]].
    destruct (pointsBuffer w); cbn [fst snd];
      split; try reflexivity; repeat constructor.
  - unfold clearCanvas. destruct (contextRef w); cbn [fst snd];
      split; try reflexivity; repeat constructor.
  - split; [reflexivity|constructor].
  - split; [|constructor]. unfold pickColor.
    rewrite setCurrentColor_userId. reflexivity.
  - split; [|constructor]. unfold pickSize.
    destruct (currentTool w); reflexivity.
  - split; [reflexivity|constructor].
Qed.

Lemma senders_app (a b : list Outgoing) :
  senders (a ++ b) = senders a ++ senders b.
Proof. unfold senders. apply flat_map_app. Qed.

(** X8. Every message a board sends that names a sender (draw,
    draw_batch, clear, the presence record) names the board's own userId,
    and no event changes that userId: these are the messages its own echo
    test recognises. *)
Theorem every_message_carries_own_userId (evs : list Event) (w : Whiteboard) :
  Forall (eq (userId w)) (senders (snd (run evs w)))
  /\ userId (fst (run evs w)) = userId w.
Proof.
  revert w. induction evs as [|ev rest IH]; intros w; cbn [run].
  - split; [constructor | reflexivity].
  - destruct (step_userId ev w) as [Hu Hs].
    destruct (step ev w) as [w1 e1]. cbn [fst snd] in *.
    destruct (IH w1) as [Hs' Hu'].
    destruct (run rest w1) as [w2 e2]. cbn [fst snd] in *.
    rewrite senders_app, Hu' , Hu. split; [|reflexivity].
    apply Forall_app. split; [exact Hs|]. rewrite <- Hu. exact Hs'.
Qed.

(** X9. The stroke log is append-only over any sequence of events: the log
    at the end starts with the log at the beginning. *)
Theorem log_is_append_only (evs : list Event) (w : Whiteboard) :
  exists added,
    strokesStoreRef (fst (run evs w)) = strokesStoreRef w ++ added.
Proof.
  revert w. induction evs as [|ev rest IH]; intros w.
  - exists []. cbn. rewrite app_nil_r. reflexivity.
  - rewrite run_cons_fst.
    destruct (step_log_grows ev w) as [a1 H1].
    destruct (IH (fst (step ev w))) as [a2 H2].
    exists (a1 ++ a2). rewrite H2, H1, app_assoc. reflexivity.
Qed.

Lemma repaintAll_eq (pen eraser : float) (w : Whiteboard) (c : Ctx) :
  contextRef w = Some c ->
  repaintAll pen eraser w
  = set_contextRef
      (Some (with_calls
               (calls c
                  ++ flat_map (stroke_calls pen eraser (strokeStyle c))
                       (strokesStoreRef w)) c)) w.
Proof.
  intros Hc. unfold repaintAll. rewrite Hc. f_equal.
  rewrite <- (with_calls_same c) at 1. apply repaint_fold.
Qed.

Lemma setupCanvas_eq (w : Whiteboard) :
  setupCanvas w
  = set_contextRef
      (Some (with_calls
               (flat_map
                  (stroke_calls INITIAL_PEN_SIZE INITIAL_ERASER_SIZE
                     INITIAL_COLOR) (strokesStoreRef w)) fresh_context)) w.
Proof.
  unfold setupCanvas.
  rewrite (repaintAll_eq _ _ (set_contextRef (Some fresh_context) w)
             fresh_context eq_refl).
  reflexivity.
Qed.

Lemma setupCanvas_painted (w : Whiteboard) :
  painted (setupCanvas w)
  = flat_map
      (stroke_calls INITIAL_PEN_SIZE INITIAL_ERASER_SIZE INITIAL_COLOR)
      (strokesStoreRef w).
Proof. rewrite setupCanvas_eq. reflexivity. Qed.

(** X10. [setupCanvas] is idempotent, and what it leaves on the surface
    is the replay of the log and nothing else: a resize handled twice (the
    resize observer and the window listener both call it) is a resize
    handled once, and whatever was painted without being logged is gone. *)
Theorem setupCanvas_idempotent (w : Whiteboard) :
  setupCanvas (setupCanvas w) = setupCanvas w
  /\ painted (setupCanvas w)
     = flat_map
         (stroke_calls INITIAL_PEN_SIZE INITIAL_ERASER_SIZE INITIAL_COLOR)
         (strokesStoreRef w).
Proof.
  rewrite !setupCanvas_eq. split; reflexivity.
Qed.

(** X11. A batch of another participant that arrives while the board has
    no drawing context paints nothing but is logged all the same, and the
    next [setupCanvas] paints it after the strokes logged before it. *)
Theorem batch_without_context_is_kept (p : BatchPayload) (w : Whiteboard) :
  contextRef w = None ->
  String.eqb (b_userId p) (userId w) = false ->
  let entry := {| points := b_points p; color := b_color p;
                  tool := Some (tool_or_pen (b_tool p));
                  size := b_size p |} in
  painted (on_draw_batch p w) = []
  /\ strokesStoreRef (on_draw_batch p w) = strokesStoreRef w ++ [entry]
  /\ painted (setupCanvas (on_draw_batch p w))
     = painted (setupCanvas w)
         ++ stroke_calls INITIAL_PEN_SIZE INITIAL_ERASER_SIZE INITIAL_COLOR
              entry.
Proof.
  intros Hc Hu. cbn zeta. rewrite !setupCanvas_eq.
  unfold on_draw_batch. rewrite Hu, Hc.
  unfold painted. cbn. rewrite flat_map_app. cbn. rewrite app_nil_r.
  repeat split.
Qed.

Lemma batch_without_context_is_kept_witness :
  painted (setupCanvas (on_draw_batch (sample_batch "other" Pen)
                          (mount "12" "me")))
  = [BeginPath; MoveTo 1 1; LineTo 2 3; Stroke SourceOver "#f43f5e" 4].
Proof.
  exact (proj2 (proj2 (batch_without_context_is_kept
                         (sample_batch "other" Pen) (mount "12" "me")
                         eq_refl eq_refl))).
Defined.

Lemma load_rows_eq (data : list StrokeRow) :
  forall (w : Whiteboard) (h : list Call) (c : Ctx),
    contextRef w = Some (with_calls h c) ->
    fold_left load_row data w
    = set_strokesStoreRef (strokesStoreRef w ++ map row_entry data)
        (set_contextRef
           (Some (with_calls
                    (h ++ flat_map
                            (stroke_calls INITIAL_PEN_SIZE INITIAL_ERASER_SIZE
                               (strokeStyle c)) (map row_entry data)) c)) w).
Proof.
  induction data as [|r rest IH]; intros w h c Hc; cbn [fold_left map flat_map].
  - rewrite !app_nil_r. destruct w; cbn in *. subst. reflexivity.
  - rewrite (IH (load_row w r)
               (h ++ stroke_calls INITIAL_PEN_SIZE INITIAL_ERASER_SIZE
                       (strokeStyle c) (row_entry r)) c).
    + unfold load_row, push_stroke.
      cbn [set_strokesStoreRef set_contextRef strokesStoreRef contextRef
           roomId userId isConnected isDrawing currentColor currentTool
           penSize eraserSize pointsBuffer batchTimerRef currentPathRef].
      rewrite <- !app_assoc. reflexivity.
    + unfold load_row, push_stroke.
      cbn [set_strokesStoreRef set_contextRef contextRef].
      rewrite Hc, drawStroke_appends. reflexivity.
Qed.

Lemma setCurrentColor_painted (col : string) (w : Whiteboard) :
  painted (setCurrentColor col w) = painted w.
Proof.
  unfold setCurrentColor, painted. destruct (String.eqb _ _); [reflexivity|].
  cbn. destruct (contextRef w); reflexivity.
Qed.

Lemma on_strokes_loaded_eq (data : list StrokeRow) (w : Whiteboard) (c : Ctx) :
  contextRef w = Some c ->
  strokesStoreRef (on_strokes_loaded data w)
  = strokesStoreRef w ++ map row_entry data
  /\ painted (on_strokes_loaded data w)
     = calls c
         ++ flat_map
              (stroke_calls INITIAL_PEN_SIZE INITIAL_ERASER_SIZE
                 (strokeStyle c)) (map row_entry data).
Proof.
  intros Hc. unfold on_strokes_loaded.
  rewrite <- (with_calls_same c) in Hc.
  rewrite (load_rows_eq data w (calls c) c Hc).
  destruct (rev data);
    rewrite ?setCurrentColor_log, ?setCurrentColor_painted;
    split; reflexivity.
Qed.

(** X12. Late joiner.  On a board that has just mounted and subscribed,
    the arrival of the stored strokes leaves a log with one entry per
    stored row, in the order of the rows, and paints exactly what a later
    resize will replay from that log. *)
Theorem late_joiner_is_seeded_from_rows
    (room uid : string) (data : list StrokeRow) :
  let seeded :=
    fst (run [Resize; Subscribed; StrokesLoaded data] (mount room uid)) in
  strokesStoreRef seeded = map row_entry data
  /\ painted seeded = painted (setupCanvas seeded)
  /\ List.length (strokesStoreRef seeded) = List.length data.
Proof.
  cbn zeta. rewrite !run_cons_fst. cbn [run step fst on_subscribed].
  destruct (on_strokes_loaded_eq data
              (set_isConnected true (setupCanvas (mount room uid)))
              fresh_context eq_refl) as [Hlog Hpaint].
  assert (Hempty : strokesStoreRef
                     (set_isConnected true (setupCanvas (mount room uid)))
                   = []) by (rewrite setupCanvas_eq; reflexivity).
  rewrite Hempty in Hlog. cbn [app] in Hlog.
  rewrite setupCanvas_painted, Hpaint, Hlog, length_map.
  repeat split.
Qed.

(** X13. If the button is released again (mouse up, then mouse leave)
    while the POST of the stroke is still in flight, the stroke is logged
    and posted a second time; once the first [stopDrawing] has run to its
    end, a second one adds nothing and posts nothing. *)
Theorem second_release_before_post_settles (w : Whiteboard) :
  currentPathRef w <> [] ->
  let entry := local_entry w (currentPathRef w) in
  let row := local_row w (currentPathRef w) in
  let first := stopDrawing_begin w in
  let second := stopDrawing_begin (fst first) in
  strokesStoreRef (fst second) = strokesStoreRef w ++ [entry; entry]
  /\ posted (snd first) = [row]
  /\ posted (snd second) = [row]
  /\ strokesStoreRef (fst (stopDrawing (fst (stopDrawing w))))
     = strokesStoreRef w ++ [entry]
  /\ snd (stopDrawing (fst (stopDrawing w))) = [].
Proof.
  intros Hpath. unfold stopDrawing, stopDrawing_begin, sendBatchedPoints,
    local_entry, local_row, tool_size.
  destruct w as [r u ctx conn dr col tl ps es buf tm path log].
  cbn in *. destruct path as [|p path]; [congruence|].
  destruct buf; cbn; rewrite <- ?app_assoc; repeat split.
Qed.

Lemma second_release_before_post_settles_witness :
  let w := fst (run [Resize; MouseDown 10 10; MouseMove 20 20]
                  (mount "12" "me")) in
  List.length (strokesStoreRef (fst (stopDrawing_begin
                                       (fst (stopDrawing_begin w))))) = 2%nat
  /\ List.length (strokesStoreRef (fst (stopDrawing (fst (stopDrawing w)))))
     = 1%nat.
Proof.
  cbn zeta.
  assert (H : currentPathRef
                (fst (run [Resize; MouseDown 10 10; MouseMove 20 20]
                        (mount "12" "me"))) <> [])
    by (vm_compute; discriminate).
  destruct (second_release_before_post_settles _ H) as (H2 & _ & _ & H1 & _).
  rewrite H2, H1. split; reflexivity.
Defined.

(** *** Replaying batches *)

(** The first point of a batch begins the path; the rest is traced from
    there. *)
Lemma drawStroke_begins_path (rest : list StrokePoint) (pen eraser : float)
    (col : string) (t : Tool) (sz : option float) (p : StrokePoint) (c : Ctx) :
  exists more,
    drawStroke pen eraser (p :: rest) col t sz (Some c)
    = Some (with_calls
              (calls c ++ BeginPath :: MoveTo (x p) (y p) :: more) c)
    /\ more
       = calls (trace_points false rest
                  (with_calls []
                     (apply_tool t col (nullish sz pen) (nullish sz eraser)
                        c))).
Proof.
  eexists. split; [|reflexivity].
  set (c1 := apply_tool t col (nullish sz pen) (nullish sz eraser) c).
  unfold drawStroke. fold c1. cbn [trace_points].
  rewrite orb_true_r.
  change (moveTo (x p) (y p) (beginPath c1))
    with (with_calls ((calls c1 ++ [BeginPath]) ++ [MoveTo (x p) (y p)]) c1).
  rewrite trace_points_frame, restore_with_calls.
  assert (Hcalls : calls c1 = calls c) by (subst c1; destruct t; reflexivity).
  rewrite Hcalls, <- !app_assoc. reflexivity.
Qed.



Lemma line_count_app (a b : list Call) :
  line_count (a ++ b) = line_count a + line_count b.
Proof. unfold line_count. rewrite filter_app, length_app. reflexivity. Qed.

Lemma move_count_app (a b : list StrokePoint) :
  move_count (a ++ b) = move_count a + move_count b.
Proof. unfold move_count. rewrite filter_app, length_app. reflexivity. Qed.

Lemma trace_points_lines (ps : list StrokePoint) (c : Ctx) :
  line_count (calls (trace_points false ps (with_calls [] c)))
  = move_count ps.
Proof.
  induction ps as [|p rest IH]; [reflexivity|].
  cbn [trace_points]. rewrite orb_false_r.
  change (p :: rest) with ([p] ++ rest). rewrite move_count_app, <- IH.
  unfold move_count at 1. cbn [filter].
  destruct (type p).
  - change (moveTo (x p) (y p) (beginPath (with_calls [] c)))
      with (with_calls [BeginPath; MoveTo (x p) (y p)] c).
    rewrite trace_points_frame. cbn [with_calls calls].
    rewrite line_count_app. reflexivity.
  - change (stroke (lineTo (x p) (y p) (with_calls [] c)))
      with (with_calls
              [LineTo (x p) (y p);
               Stroke (globalCompositeOperation c) (strokeStyle c)
                 (lineWidth c)] c).
    rewrite trace_points_frame. cbn [with_calls calls].
    rewrite line_count_app. reflexivity.
Qed.

(** The segments [drawStroke] draws: one per move point after the first
    point of the batch. *)
Lemma paint_calls_lines (pen eraser : float) (style col : string) (t : Tool)
    (sz : option float) (p : StrokePoint) (rest : list StrokePoint) :
  line_count (paint_calls pen eraser style (p :: rest) col t sz)
  = move_count rest.
Proof.
  unfold paint_calls.
  destruct (drawStroke_begins_path rest pen eraser col t sz p
              {| globalCompositeOperation := SourceOver; strokeStyle := style;
                 lineWidth := 5%float; calls := [] |}) as [more [Heq Hmore]].
  rewrite Heq. cbn [with_calls calls app line_count filter].
  fold (line_count more). rewrite Hmore. apply trace_points_lines.
Qed.

(** X14. A stroke replayed as two batches, the second of which starts
    with a move point (the flush timer cut the stroke there), has one
    segment fewer than the same stroke replayed whole: the segment that
    joins the two batches is not drawn. *)
Theorem split_replay_drops_joining_segment
    (pen eraser : float) (style col : string) (t : Tool) (sz : option float)
    (p1 : StrokePoint) (rest1 : list StrokePoint) (px py : float)
    (rest2 : list StrokePoint) :
  line_count
    (paint_calls pen eraser style (p1 :: rest1 ++ pt Move px py :: rest2)
       col t sz)
  = S (line_count (paint_calls pen eraser style (p1 :: rest1) col t sz)
       + line_count
           (paint_calls pen eraser style (pt Move px py :: rest2) col t sz)).
Proof.
  rewrite !paint_calls_lines, move_count_app.
  change (pt Move px py :: rest2) with ([pt Move px py] ++ rest2).
  rewrite move_count_app. cbn. lia.
Qed.

(** *** Points received one by one *)

Lemma feed_draw_trace (uid col : string) (t : option Tool)
    (sz : option float) (c : Ctx) (rest : list StrokePoint) :
  forall (w : Whiteboard) (h : list Call),
    contextRef w = Some (with_calls h c) ->
    String.eqb uid (userId w) = false ->
    contextRef (feed_draw uid col t sz rest w)
    = Some (restore c
              (trace_points false rest
                 (with_calls h
                    (apply_tool (tool_or_pen t) col
                       (nullish sz INITIAL_PEN_SIZE)
                       (nullish sz INITIAL_ERASER_SIZE) c))))
    /\ strokesStoreRef (feed_draw uid col t sz rest w) = strokesStoreRef w.
Proof.
  induction rest as [|p rest IH]; intros w h Hc Hu.
  - cbn. rewrite Hc. auto.
  - change (feed_draw uid col t sz (p :: rest) w)
      with (feed_draw uid col t sz rest
              (on_draw (point_payload uid col t sz p) w)).
    set (c1 := apply_tool (tool_or_pen t) col (nullish sz INITIAL_PEN_SIZE)
                 (nullish sz INITIAL_ERASER_SIZE) c).
    assert (Hstep : exists h',
               contextRef (on_draw (point_payload uid col t sz p) w)
               = Some (with_calls h' c)
               /\ trace_points false (p :: rest) (with_calls h c1)
                  = trace_points false rest (with_calls h' c1)).
    { unfold on_draw. cbn [point_payload d_userId d_type d_x d_y d_color
                           d_tool d_size].
      rewrite Hu, Hc, apply_tool_with_calls. fold c1.
      cbn [trace_points]. rewrite orb_false_r.
      destruct (type p); eexists; split; reflexivity. }
    destruct Hstep as (h' & Hc' & Htr).
    assert (Hu' : String.eqb uid
                    (userId (on_draw (point_payload uid col t sz p) w))
                  = false).
    { unfold on_draw. cbn [point_payload d_userId]. rewrite Hu, Hc. exact Hu. }
    destruct (IH _ h' Hc' Hu') as [Hctx Hlog].
    rewrite Hctx, Hlog, Htr. split; [reflexivity|].
    unfold on_draw. cbn [point_payload d_userId]. rewrite Hu, Hc. reflexivity.
Qed.

(** X15. The points of a stroke of another participant, received one by
    one as [draw] broadcasts and starting with its start point, put on the
    surface exactly the calls [drawStroke] makes for the whole stroke, and
    leave the context properties as they were; but nothing of them enters
    the stroke log. *)
Theorem live_points_paint_like_the_batch
    (uid col : string) (t : option Tool) (sz : option float)
    (px py : float) (rest : list StrokePoint) (w : Whiteboard) (c : Ctx) :
  contextRef w = Some c ->
  String.eqb uid (userId w) = false ->
  contextRef (feed_draw uid col t sz (pt Start px py :: rest) w)
  = drawStroke INITIAL_PEN_SIZE INITIAL_ERASER_SIZE (pt Start px py :: rest)
      col (tool_or_pen t) sz (Some c)
  /\ strokesStoreRef (feed_draw uid col t sz (pt Start px py :: rest) w)
     = strokesStoreRef w.
Proof.
  intros Hc Hu. rewrite <- (with_calls_same c) in Hc.
  destruct (feed_draw_trace uid col t sz c (pt Start px py :: rest) w (calls c)
              Hc Hu) as [Hctx Hlog].
  rewrite Hctx, Hlog. split; [|reflexivity].
  unfold drawStroke. cbn [trace_points pt type]. cbn [orb].
  assert (H1 : with_calls (calls c)
                 (apply_tool (tool_or_pen t) col (nullish sz INITIAL_PEN_SIZE)
                    (nullish sz INITIAL_ERASER_SIZE) c)
               = apply_tool (tool_or_pen t) col (nullish sz INITIAL_PEN_SIZE)
                   (nullish sz INITIAL_ERASER_SIZE) c)
    by (destruct (tool_or_pen t); reflexivity).
  rewrite H1. reflexivity.
Qed.

Lemma live_points_paint_like_the_batch_witness :
  option_map calls
    (contextRef
       (feed_draw "other" "#60a5fa" (Some Pen) None
          [pt Start 1 1; pt Move 2 2; pt Move 3 1] sample_board))
  = option_map calls
      (drawStroke INITIAL_PEN_SIZE INITIAL_ERASER_SIZE
         [pt Start 1 1; pt Move 2 2; pt Move 3 1] "#60a5fa" Pen None
         (contextRef sample_board)).
Proof.
  set (c := match contextRef sample_board with
            | Some c => c
            | None => fresh_context
            end).
  destruct (live_points_paint_like_the_batch "other" "#60a5fa" (Some Pen) None
              1 1 [pt Move 2 2; pt Move 3 1] sample_board c eq_refl eq_refl)
    as [H _].
  rewrite H. reflexivity.
Defined.

(** *** A local stroke, with the flush timer running *)

Lemma trace_points_false_app (a b : list StrokePoint) :
  forall c,
    trace_points false (a ++ b) c
    = trace_points false b (trace_points false a c).
Proof.
  induction a as [|p rest IH]; intros c; [reflexivity|].
  cbn [app trace_points]. rewrite orb_false_r.
  destruct (type p); apply IH.
Qed.

Lemma trace_points_settings (b : bool) (ps : list StrokePoint) (c : Ctx) :
  settings (trace_points b ps c) = settings c.
Proof.
  rewrite <- (with_calls_same c) at 1. rewrite trace_points_frame.
  reflexivity.
Qed.

Lemma apply_tool_fixed (t : Tool) (col : string) (pw ew : float)
    (style : string) (c : Ctx) :
  settings c
  = match t with
    | Eraser => (DestinationOut, style, ew)
    | Pen => (SourceOver, col, pw)
    end ->
  apply_tool t col pw ew c = c.
Proof.
  destruct c as [op st wd cs]. unfold settings. cbn.
  destruct t; intros H; inversion H; subst; reflexivity.
Qed.

Lemma retooled_fixed (w : Whiteboard) (style : string) (c : Ctx) :
  settings c = stroke_settings w style -> retooled w c = c.
Proof.
  unfold retooled, stroke_settings. intros H.
  apply (apply_tool_fixed _ _ _ _ style). destruct (currentTool w); exact H.
Qed.

Lemma retooled_set_composite (w : Whiteboard) (op : CompositeOp) (c : Ctx) :
  retooled w (set_composite op c) = retooled w c.
Proof. unfold retooled. destruct (currentTool w); reflexivity. Qed.

Lemma retooled_calls (w : Whiteboard) (c : Ctx) :
  calls (retooled w c) = calls c.
Proof. unfold retooled. destruct (currentTool w); reflexivity. Qed.

Lemma retooled_tools (w0 w : Whiteboard) (c : Ctx) :
  tools w = tools w0 -> retooled w c = retooled w0 c.
Proof.
  unfold tools, retooled. intros H. inversion H as [[H1 H2 H3 H4]].
  rewrite H1, H2, H3, H4. reflexivity.
Qed.

Lemma path_kept_quiet (mid : list Mid) :
  forall path,
    forallb quiet mid = true -> path_kept path mid = path ++ mid_points mid.
Proof.
  induction mid as [|m rest IH]; intros path Hq.
  - cbn. rewrite app_nil_r. reflexivity.
  - cbn [forallb] in Hq. apply andb_prop in Hq. destruct Hq as [Hm Hr].
    cbn [path_kept]. rewrite Hm, (IH _ Hr).
    change (mid_points (m :: rest)) with (mid_point m ++ mid_points rest).
    rewrite app_assoc. reflexivity.
Qed.

Lemma path_kept_settled (a b : list Mid) :
  forall path,
    forallb quiet b = true ->
    path_kept path (a ++ Settled :: b) = mid_points b.
Proof.
  induction a as [|m rest IH]; intros path Hq.
  - cbn [app path_kept quiet]. rewrite (path_kept_quiet b [] Hq). reflexivity.
  - cbn [app path_kept]. apply IH, Hq.
Qed.

Lemma batches_app (a b : list Outgoing) :
  batches (a ++ b) = batches a ++ batches b.
Proof. unfold batches. apply flat_map_app. Qed.

(** One event in the middle of a stroke.  [T] is the context as the tool
    of the stroke leaves it; the board's context is [T], or [T] with the
    composite mode written back by a settled POST. *)
Lemma mid_step (m : Mid) (w0 w : Whiteboard) (style : string) (ctx T : Ctx) :
  in_stroke w0 w ->
  contextRef w = Some ctx ->
  retooled w0 ctx = T ->
  settings T = stroke_settings w0 style ->
  in_stroke w0 (fst (step (mid_event m) w))
  /\ (exists ctx',
        contextRef (fst (step (mid_event m) w)) = Some ctx'
        /\ retooled w0 ctx' = trace_points false (mid_point m) T)
  /\ currentPathRef (fst (step (mid_event m) w))
     = (if quiet m then currentPathRef w ++ mid_point m else [])
  /\ batch_points (snd (step (mid_event m) w))
       ++ pointsBuffer (fst (step (mid_event m) w))
     = pointsBuffer w ++ mid_point m
  /\ draw_points (snd (step (mid_event m) w)) = mid_point m
  /\ posted (snd (step (mid_event m) w)) = []
  /\ Forall (fun b => batch_label b
                      = closure_label (userId w0) (timer_closure w0))
       (batches (snd (step (mid_event m) w))).
Proof.
  intros (Ht & Hr & Hl & Hd & Htm & Hu) Hc HT Hs.
  destruct m as [px py| |]; cbn [mid_event step mid_point quiet].
  - unfold draw. rewrite Hd, Hc. cbn [negb fst snd].
    fold (retooled w ctx). rewrite (retooled_tools w0 w ctx Ht), HT.
    cbn [set_currentPathRef set_pointsBuffer set_contextRef contextRef
         currentPathRef pointsBuffer tools roomId strokesStoreRef isDrawing
         batchTimerRef userId currentTool currentColor penSize eraserSize].
    split; [repeat split; assumption|].
    split.
    { eexists. split; [reflexivity|].
      cbn [trace_points pt type orb x y].
      apply (retooled_fixed w0 style). rewrite <- Hs. reflexivity. }
    cbn. repeat split; constructor.
  - rewrite Htm. unfold sendBatchedPoints.
    destruct (pointsBuffer w) as [|b0 buf] eqn:Hb; cbn [fst snd].
    + split; [repeat split; assumption|].
      split; [exists ctx; split; [exact Hc | exact HT]|].
      rewrite Hb. cbn. rewrite app_nil_r. repeat split; constructor.
    + cbn [set_pointsBuffer contextRef currentPathRef pointsBuffer].
      split; [repeat split; assumption|].
      split; [exists ctx; split; [exact Hc | exact HT]|].
      cbn. rewrite !app_nil_r. repeat split.
      constructor; [|constructor].
      unfold batch_label, closure_label. cbn. rewrite Hu. reflexivity.
  - unfold stopDrawing_finish, on_ctx. cbn [fst snd].
    cbn [set_currentPathRef set_contextRef contextRef currentPathRef
         pointsBuffer].
    rewrite Hc. cbn [option_map].
    split; [repeat split; assumption|].
    split.
    { eexists. split; [reflexivity|].
      rewrite retooled_set_composite. exact HT. }
    cbn. rewrite app_nil_r. repeat split; constructor.
Qed.

Lemma mid_run (w0 : Whiteboard) (style : string) (mid : list Mid) :
  forall (w : Whiteboard) (ctx T : Ctx),
    in_stroke w0 w ->
    contextRef w = Some ctx ->
    retooled w0 ctx = T ->
    settings T = stroke_settings w0 style ->
    in_stroke w0 (fst (run (map mid_event mid) w))
    /\ (exists ctx',
          contextRef (fst (run (map mid_event mid) w)) = Some ctx'
          /\ retooled w0 ctx' = trace_points false (mid_points mid) T)
    /\ currentPathRef (fst (run (map mid_event mid) w))
       = path_kept (currentPathRef w) mid
    /\ batch_points (snd (run (map mid_event mid) w))
         ++ pointsBuffer (fst (run (map mid_event mid) w))
       = pointsBuffer w ++ mid_points mid
    /\ draw_points (snd (run (map mid_event mid) w)) = mid_points mid
    /\ posted (snd (run (map mid_event mid) w)) = []
    /\ Forall (fun b => batch_label b
                        = closure_label (userId w0) (timer_closure w0))
         (batches (snd (run (map mid_event mid) w))).
Proof.
  induction mid as [|m rest IH]; intros w ctx T Hin Hc HT Hs.
  - cbn. rewrite !app_nil_r. split; [exact Hin|].
    split; [exists ctx; split; assumption|].
    repeat split. constructor.
  - cbn [map]. rewrite run_cons_fst, run_cons_snd.
    destruct (mid_step m w0 w style ctx T Hin Hc HT Hs)
      as (Hin1 & (ctx1 & Hc1 & HT1) & Hp1 & Hb1 & Hd1 & Hq1 & Hl1).
    assert (Hs1 : settings (trace_points false (mid_point m) T)
                  = stroke_settings w0 style)
      by (rewrite trace_points_settings; exact Hs).
    destruct (IH (fst (step (mid_event m) w)) ctx1 _ Hin1 Hc1 HT1 Hs1)
      as (Hin2 & (ctx2 & Hc2 & HT2) & Hp2 & Hb2 & Hd2 & Hq2 & Hl2).
    change (mid_points (m :: rest)) with (mid_point m ++ mid_points rest).
    split; [exact Hin2|].
    split.
    { exists ctx2. split; [exact Hc2|].
      rewrite HT2, trace_points_false_app. reflexivity. }
    split; [rewrite Hp2, Hp1; reflexivity|].
    split.
    { unfold batch_points in *. rewrite flat_map_app, <- app_assoc, Hb2.
      rewrite app_assoc, Hb1, app_assoc. reflexivity. }
    split.
    { unfold draw_points in *. rewrite flat_map_app, Hd1, Hd2. reflexivity. }
    split.
    { unfold posted in *. rewrite flat_map_app, Hq1, Hq2. reflexivity. }
    rewrite batches_app. apply Forall_app. split; assumption.
Qed.

Lemma start_facts (px py : float) (w : Whiteboard) (c : Ctx) :
  contextRef w = Some c ->
  let ctx1 := moveTo px py (beginPath (retooled w c)) in
  in_stroke w (fst (startDrawing px py w))
  /\ contextRef (fst (startDrawing px py w)) = Some ctx1
  /\ retooled w ctx1 = ctx1
  /\ settings ctx1 = stroke_settings w (strokeStyle c)
  /\ currentPathRef (fst (startDrawing px py w)) = [pt Start px py]
  /\ pointsBuffer (fst (startDrawing px py w))
     = pointsBuffer w ++ [pt Start px py]
  /\ snd (startDrawing px py w) = [SendDraw (draw_payload Start px py w)].
Proof.
  unfold in_stroke, tools, stroke_settings, startDrawing, retooled,
    timer_closure.
  destruct w as [r u cx conn dr col tl ps es buf tm path log].
  cbn. intros Hc. subst. cbn.
  destruct tm, tl; cbn; repeat split; reflexivity.
Qed.

(** The release in the middle of a stroke, up to its POST. *)
Lemma stop_facts (w0 w : Whiteboard) (ctx : Ctx) :
  in_stroke w0 w ->
  contextRef w = Some ctx ->
  batch_points (snd (stopDrawing_begin w)) = pointsBuffer w
  /\ draw_points (snd (stopDrawing_begin w)) = []
  /\ posted (snd (stopDrawing_begin w)) = rows w0 (currentPathRef w)
  /\ strokesStoreRef (fst (stopDrawing_begin w))
     = strokesStoreRef w0 ++ entries w0 (currentPathRef w)
  /\ painted (fst (stopDrawing_begin w)) = calls ctx ++ [ClosePath]
  /\ Forall (fun b => batch_label b = closure_label (userId w0) (closure w0))
       (batches (snd (stopDrawing_begin w))).
Proof.
  unfold in_stroke, tools, stopDrawing_begin, sendBatchedPoints, rows,
    entries, local_row, local_entry, tool_size, painted, batch_label,
    closure_label, closure_size, closure, stopDrawing_finish.
  destruct w as [r u cx conn dr col tl pz es buf tm path log].
  destruct w0 as [r0 u0 cx0 conn0 dr0 col0 tl0 ps0 es0 buf0 tm0 path0 log0].
  cbn. intros (Ht & Hr & Hl & Hd & Htm & Hu) Hc.
  inversion Ht; subst. clear Ht.
  destruct buf, path; cbn; rewrite ?app_nil_r; repeat split;
    repeat constructor.
Qed.

(** The whole of a stroke, with the timer firing and earlier POSTs
    settling between the moves. *)
Lemma ticked_stroke_run (px py : float) (mid : list Mid) (w : Whiteboard)
    (c : Ctx) :
  contextRef w = Some c ->
  let path := pt Start px py :: mid_points mid in
  let kept := path_kept [pt Start px py] mid in
  let r := run (ticked_stroke px py mid) w in
  batch_points (snd r) = pointsBuffer w ++ path
  /\ draw_points (snd r) = path
  /\ posted (snd r) = rows w kept
  /\ strokesStoreRef (fst r) = strokesStoreRef w ++ entries w kept
  /\ painted (fst r)
     = calls (trace_points false (mid_points mid)
                (moveTo px py (beginPath (retooled w c))))
         ++ [ClosePath]
  /\ Forall (fun b => batch_label b = closure_label (userId w) (timer_closure w)
                      \/ batch_label b = closure_label (userId w) (closure w))
       (batches (snd r)).
Proof.
  intros Hc. cbn zeta. unfold ticked_stroke.
  destruct (start_facts px py w c Hc)
    as (Hin & Hc1 & HT1 & Hs1 & Hp1 & Hb1 & He1).
  destruct (mid_run w (strokeStyle c) mid _ _ _ Hin Hc1 HT1 Hs1)
    as (Hin2 & (ctx2 & Hc2 & HT2) & Hp2 & Hb2 & Hd2 & Hq2 & Hl2).
  rewrite Hp1 in Hp2. rewrite Hb1 in Hb2.
  destruct (stop_facts w _ ctx2 Hin2 Hc2)
    as (Hb3 & Hd3 & Hq3 & Hg3 & Hc3 & Hl3).
  rewrite Hp2 in Hq3, Hg3.
  rewrite run_cons_fst, run_cons_snd, !run_app. cbn [fst snd step].
  rewrite run_single_fst, run_cons_snd. cbn [run step snd].
  rewrite app_nil_r, He1.
  split.
  { unfold batch_points in *. rewrite !flat_map_app.
    cbn [flat_map app]. rewrite Hb3, Hb2, <- app_assoc. reflexivity. }
  split.
  { unfold draw_points in *. rewrite !flat_map_app.
    cbn [flat_map app draw_payload d_type d_x d_y]. rewrite Hd2, Hd3, app_nil_r.
    reflexivity. }
  split.
  { unfold posted in *. rewrite !flat_map_app. cbn [flat_map app].
    rewrite Hq2, Hq3. reflexivity. }
  split; [exact Hg3|].
  split.
  { rewrite Hc3, <- (retooled_calls w ctx2), HT2. reflexivity. }
  change (SendDraw (draw_payload Start px py w) :: ?l)
    with ([SendDraw (draw_payload Start px py w)] ++ l).
  rewrite !batches_app. cbn [batches flat_map app].
  apply Forall_app. split.
  - eapply Forall_impl; [|exact Hl2]. intros b Hb. left. exact Hb.
  - eapply Forall_impl; [|exact Hl3]. intros b Hb. right. exact Hb.
Qed.

(** X16. Batching loses and repeats nothing.  Whatever the moments at
    which the flush timer fires, or the POST of an earlier stroke settles,
    between the press and the release of a stroke, the draw_batch messages
    sent carry, put end to end, exactly the points that were still
    buffered followed by the points of the stroke, in order; the per-point
    draw messages carry the points of the stroke; every batch is labelled
    with the local userId and with the colour, tool and size captured by
    the running timer or in hand at the release.  What the release posts
    and logs is the path since the last settled POST: the whole stroke,
    once, when no POST settles during it; only the moves made after it,
    and nothing when there are none, when one does. *)
Theorem stroke_batches_carry_every_point
    (px py : float) (mid : list Mid) (w : Whiteboard) (c : Ctx) :
  contextRef w = Some c ->
  let path := pt Start px py :: mid_points mid in
  let r := run (ticked_stroke px py mid) w in
  batch_points (snd r) = pointsBuffer w ++ path
  /\ draw_points (snd r) = path
  /\ Forall (fun b => batch_label b = closure_label (userId w) (timer_closure w)
                      \/ batch_label b = closure_label (userId w) (closure w))
       (batches (snd r))
  /\ exists kept,
       posted (snd r) = rows w kept
       /\ strokesStoreRef (fst r) = strokesStoreRef w ++ entries w kept
       /\ (forallb quiet mid = true -> kept = path)
       /\ (forall a b,
             mid = a ++ Settled :: b -> forallb quiet b = true ->
             kept = mid_points b).
Proof.
  intros Hc.
  destruct (ticked_stroke_run px py mid w c Hc)
    as (H1 & H2 & H3 & H4 & _ & H6).
  cbn zeta. split; [exact H1|]. split; [exact H2|]. split; [exact H6|].
  exists (path_kept [pt Start px py] mid).
  split; [exact H3|]. split; [exact H4|]. split.
  - intros Hq. rewrite (path_kept_quiet mid _ Hq). reflexivity.
  - intros a b Hm Hq. rewrite Hm. apply path_kept_settled, Hq.
Qed.

Lemma stroke_batches_carry_every_point_witness :
  let w := fst (run [Resize] (mount "12" "me")) in
  let quiet_mid := [Moved 11 12; Tick; Moved 13 14; Tick; Tick] in
  let cut_mid := [Moved 11 12; Tick; Settled; Moved 13 14; Tick] in
  batch_points (snd (run (ticked_stroke 10 10 quiet_mid) w))
  = [pt Start 10 10; pt Move 11 12; pt Move 13 14]
  /\ posted (snd (run (ticked_stroke 10 10 quiet_mid) w))
     = [local_row w [pt Start 10 10; pt Move 11 12; pt Move 13 14]]
  /\ batch_points (snd (run (ticked_stroke 10 10 cut_mid) w))
     = [pt Start 10 10; pt Move 11 12; pt Move 13 14]
  /\ posted (snd (run (ticked_stroke 10 10 cut_mid) w))
     = [local_row w [pt Move 13 14]].
Proof.
  cbn zeta.
  destruct (stroke_batches_carry_every_point 10 10
              [Moved 11 12; Tick; Moved 13 14; Tick; Tick]
              (fst (run [Resize] (mount "12" "me"))) fresh_context eq_refl)
    as (Hb & _ & _ & kept & Hp & _ & Hq & _).
  destruct (stroke_batches_carry_every_point 10 10
              [Moved 11 12; Tick; Settled; Moved 13 14; Tick]
              (fst (run [Resize] (mount "12" "me"))) fresh_context eq_refl)
    as (Hb' & _ & _ & kept' & Hp' & _ & _ & Hc').
  split; [exact Hb|].
  split; [rewrite Hp, (Hq eq_refl); reflexivity|].
  split; [exact Hb'|].
  rewrite Hp', (Hc' [Moved 11 12; Tick] [Moved 13 14; Tick] eq_refl eq_refl).
  reflexivity.
Defined.

(** X17. What a local stroke puts on the surface while it is drawn is
    what the replay of one log entry holding its whole path puts there,
    followed by the closePath of the release, whatever the moments at
    which the flush timer fires or an earlier POST settles, and whatever
    sizes the replaying closure has captured.  When no POST settles during
    the stroke the log does receive that entry, and the repaint of a resize
    paints the strokes logged before and then this stroke as it was drawn
    (an eraser stroke with the stroke style of the fresh context). *)
Theorem local_stroke_paints_like_its_replay
    (pen eraser : float) (px py : float) (mid : list Mid) (w : Whiteboard)
    (c : Ctx) :
  contextRef w = Some c ->
  let path := pt Start px py :: mid_points mid in
  let r := run (ticked_stroke px py mid) w in
  painted (fst r)
  = calls c ++ stroke_calls pen eraser (strokeStyle c) (local_entry w path)
      ++ [ClosePath]
  /\ (forallb quiet mid = true ->
      strokesStoreRef (fst r) = strokesStoreRef w ++ [local_entry w path]
      /\ painted (setupCanvas (fst r))
         = painted (setupCanvas w)
             ++ stroke_calls INITIAL_PEN_SIZE INITIAL_ERASER_SIZE
                  INITIAL_COLOR (local_entry w path)).
Proof.
  intros Hc. cbn zeta.
  destruct (ticked_stroke_run px py mid w c Hc)
    as (_ & _ & _ & Hlog & Hctx & _).
  split.
  - rewrite Hctx. rewrite app_assoc. f_equal.
    pose proof (drawStroke_appends pen eraser
                  (pt Start px py :: mid_points mid)
                  (currentColor w) (currentTool w) (Some (tool_size w)) c)
      as Hd.
    unfold drawStroke in Hd. cbn [nullish trace_points pt type orb] in Hd.
    injection Hd as Hd.
    unfold stroke_calls, local_entry.
    cbn [points color tool size tool_or_pen].
    rewrite <- Hd. unfold tool_size, retooled.
    destruct (currentTool w); reflexivity.
  - intros Hq. rewrite (path_kept_quiet mid _ Hq) in Hlog.
    cbn [app entries] in Hlog. split; [exact Hlog|].
    rewrite !setupCanvas_painted, Hlog, flat_map_app. cbn [flat_map].
    rewrite app_nil_r. reflexivity.
Qed.

Lemma local_stroke_paints_like_its_replay_witness :
  let r := run (ticked_stroke 10 10 [Moved 20 20; Tick; Moved 30 10])
             (fst (run [Resize] (mount "12" "me"))) in
  painted (fst r)
  = [BeginPath; MoveTo 10 10; LineTo 20 20; Stroke SourceOver INITIAL_COLOR 5;
     LineTo 30 10; Stroke SourceOver INITIAL_COLOR 5; ClosePath]
  /\ painted (setupCanvas (fst r))
     = [BeginPath; MoveTo 10 10; LineTo 20 20;
        Stroke SourceOver INITIAL_COLOR 5;
        LineTo 30 10; Stroke SourceOver INITIAL_COLOR 5].
Proof.
  cbn zeta.
  destruct (local_stroke_paints_like_its_replay 5 18 10 10
              [Moved 20 20; Tick; Moved 30 10]
              (fst (run [Resize] (mount "12" "me"))) fresh_context eq_refl)
    as (Hp & Hl).
  split; [exact Hp|].
  exact (proj2 (Hl eq_refl)).
Defined.

End BoardMore.

(** ** The dashboard hash *)

Section Thumbnails.

Import Dashboard.
Local Open Scope Z_scope.

Lemma to_int32_mod (z : Z) : to_int32 z mod 2 ^ 32 = z mod 2 ^ 32.
Proof.
  unfold to_int32.
  rewrite (Z.mod_eq (z + 2 ^ 31) (2 ^ 32)) by lia.
  replace (z + 2 ^ 31 - 2 ^ 32 * ((z + 2 ^ 31) / 2 ^ 32) - 2 ^ 31)
    with (z + (- ((z + 2 ^ 31) / 2 ^ 32)) * 2 ^ 32) by ring.
  apply Z_mod_plus_full.
Qed.

Lemma lxor_mod_pow2 (a b n : Z) :
  0 <= n ->
  Z.lxor a b mod 2 ^ n = Z.lxor (a mod 2 ^ n) (b mod 2 ^ n).
Proof.
  intros Hn. apply Z.bits_inj'. intros k Hk.
  rewrite Z.lxor_spec.
  destruct (Z.lt_ge_cases k n) as [Hlt|Hge].
  - rewrite !Z.mod_pow2_bits_low by assumption. apply Z.lxor_spec.
  - rewrite !Z.mod_pow2_bits_high by lia. reflexivity.
Qed.

Lemma bitxor_mod (h c : Z) :
  bitxor h c mod 2 ^ 32 = Z.lxor (h mod 2 ^ 32) (c mod 2 ^ 32).
Proof.
  unfold bitxor. rewrite lxor_mod_pow2 by lia.
  rewrite !to_int32_mod. reflexivity.
Qed.

Lemma imul_mod (a b : Z) : imul a b mod 2 ^ 32 = (a * b) mod 2 ^ 32.
Proof.
  unfold imul. rewrite to_int32_mod.
  rewrite Z.mul_mod, !to_int32_mod, <- Z.mul_mod by lia. reflexivity.
Qed.

Lemma hash_step_mod (h u c : Z) :
  h mod 2 ^ 32 = u mod 2 ^ 32 ->
  imul (bitxor h c) 16777619 mod 2 ^ 32
  = ((Z.lxor u c * 16777619) mod 2 ^ 32) mod 2 ^ 32.
Proof.
  intros Hhu. rewrite imul_mod, Z.mod_mod by lia.
  rewrite Z.mul_mod, bitxor_mod, Hhu, <- lxor_mod_pow2, <- Z.mul_mod by lia.
  reflexivity.
Qed.

Lemma hash_fold_mod (str : list Z) :
  forall h u,
    h mod 2 ^ 32 = u mod 2 ^ 32 ->
    fold_left (fun h c => imul (bitxor h c) 16777619) str h mod 2 ^ 32
    = fold_left (fun h c => (Z.lxor h c * 16777619) mod 2 ^ 32) str u
        mod 2 ^ 32.
Proof.
  induction str as [|c rest IH]; intros h u Hhu; cbn [fold_left].
  - exact Hhu.
  - apply IH. apply hash_step_mod, Hhu.
Qed.

Lemma fnv_fold_range (str : list Z) :
  forall u,
    0 <= u < 2 ^ 32 ->
    0 <= fold_left (fun h c => (Z.lxor h c * 16777619) mod 2 ^ 32) str u
      < 2 ^ 32.
Proof.
  induction str as [|c rest IH]; intros u Hu; cbn [fold_left]; [exact Hu|].
  apply IH. apply Z.mod_pos_bound. lia.
Qed.

(** X18. [hashFNV1a], computed with signed 32-bit xor and [Math.imul] and
    made unsigned at the end, is the 32-bit FNV-1a hash of the code units:
    offset basis 2166136261, then for each unit xor and multiplication by
    16777619 modulo 2^32.  Its value lies in [0, 2^32). *)
Theorem hashFNV1a_is_fnv1a (str : list Z) :
  hashFNV1a str = fnv1a_32 str /\ 0 <= hashFNV1a str < 2 ^ 32.
Proof.
  assert (H : hashFNV1a str = fnv1a_32 str).
  { unfold hashFNV1a, fnv1a_32, to_uint32.
    rewrite (hash_fold_mod str 2166136261 2166136261 eq_refl).
    apply Z.mod_small, fnv_fold_range. lia. }
  split; [exact H|]. rewrite H. apply fnv_fold_range. lia.
Qed.

(** The published test vectors of FNV-1a: the empty string and "a". *)
Example hashFNV1a_vectors :
  hashFNV1a (code_units "") = 0x811c9dc5
  /\ hashFNV1a (code_units "a") = 0xe40c292c
  /\ hashFNV1a (code_units "foobar") = 0xbf9cf968.
Proof. repeat split; vm_compute; reflexivity. Qed.

(** X19. [pickThumbById] always returns one of the three thumbnails:
    the index h % 3 never falls outside THUMBS, whatever the id. *)
Theorem pickThumbById_defined (id : list Z) :
  exists th, pickThumbById id = Some th /\ In th THUMBS.
Proof.
  unfold pickThumbById. cbn zeta.
  set (idx := hashFNV1a id mod Z.of_nat (List.length THUMBS)).
  assert (Hidx : 0 <= idx < 3) by (apply Z.mod_pos_bound; reflexivity).
  assert (Hn : (Z.to_nat idx < 3)%nat) by lia.
  destruct (Z.to_nat idx) as [|[|[|n]]]; [| | |lia];
    eexists; (split; [reflexivity|]); cbn; auto.
Qed.

End Thumbnails.

(** ** Row changes of the room *)

Section RoomChanges.

Import RoomRealtime.

(** X20. The listener takes the new row from [payload.new], and from
    [payload.record] only when the payload has a [new] key holding null or
    undefined: a payload with no [new] key leaves the room as it is even
    when it carries a [record]; a DELETE clears the room whatever else the
    payload holds. *)
Theorem record_is_read_only_under_a_null_new
    (r : RoomRow) (f g : Field) (room : option RoomRow) :
  on_change {| isDelete := false; new_ := Absent; record_ := Row r |} room
  = room
  /\ on_change {| isDelete := false; new_ := Nullish; record_ := Row r |} room
     = Some r
  /\ on_change {| isDelete := false; new_ := Row r; record_ := f |} room
     = Some r
  /\ on_change {| isDelete := true; new_ := f; record_ := g |} room = None.
Proof. repeat split. Qed.

End RoomChanges.
